(** * LocationScreen: the hiking-group location-sharing screen

    A shallow embedding of [src/screens/LocationScreen.tsx].

    The component keeps nine pieces of React state and one mutable ref (the
    location subscription handle).  Event handlers are modelled as functions
    on a [World]: the React state, the ref, the part of the platform the
    screen talks to (location watches that are delivering, and calls to
    [watchPositionAsync] whose promise has not settled yet) and the trace of
    observable effects (alerts, console output, platform calls).

    JavaScript numbers are IEEE-754 doubles and are modelled by the kernel's
    primitive floats; strings are sequences of UTF-16 code units. *)

From Stdlib Require Import List ZArith NArith Bool String Ascii Lia PrimFloat.
Import ListNotations.

Set Warnings "-inexact-float".
Set Implicit Arguments.

(* ------------------------------------------------------------------ *)
(** ** JavaScript strings *)

Module Js.

(** A string is its sequence of UTF-16 code units. *)
Definition jsstring : Type := list N.

Fixpoint str (s : string) : jsstring :=
  match s with
  | EmptyString => []
  | String a rest => N_of_ascii a :: str rest
  end.

(** Code unit of the double-quote character, used inside template strings. *)
Definition dquote : N := 34%N.

(** ECMAScript [WhiteSpace] and [LineTerminator] code points: the characters
    [String.prototype.trim] strips. *)
Definition isWhiteSpace (c : N) : bool :=
  ((9 <=? c) && (c <=? 13) ||
   (c =? 32) || (c =? 160) || (c =? 5760) ||
   ((8192 <=? c) && (c <=? 8202)) ||
   (c =? 8232) || (c =? 8233) || (c =? 8239) || (c =? 8287) ||
   (c =? 12288) || (c =? 65279))%N.

Fixpoint trimStart (s : jsstring) : jsstring :=
  match s with
  | [] => []
  | c :: rest => if isWhiteSpace c then trimStart rest else s
  end.

Definition trimEnd (s : jsstring) : jsstring := rev (trimStart (rev s)).

(** [s.trim()] *)
Definition trim (s : jsstring) : jsstring := trimEnd (trimStart s).

(** Truthiness of a string: every string but the empty one is truthy. *)
Definition truthy (s : jsstring) : bool :=
  match s with
  | [] => false
  | _ :: _ => true
  end.

(** [arr.indexOf(x)]: the first position holding [x], or -1. *)
Section IndexOf.
Variable A : Type.
Variable eqb : A -> A -> bool.

Fixpoint indexOfFrom (x : A) (arr : list A) (i : Z) : Z :=
  match arr with
  | [] => (-1)%Z
  | y :: rest => if eqb y x then i else indexOfFrom x rest (i + 1)%Z
  end.

Definition indexOf (x : A) (arr : list A) : Z := indexOfFrom x arr 0%Z.

(** [arr[i]]: [undefined] (here [None]) outside the array. *)
Definition at_ (arr : list A) (i : Z) : option A :=
  if (i <? 0)%Z then None else nth_error arr (Z.to_nat i).
End IndexOf.

(** The settlement of a promise. *)
Inductive Outcome (A : Type) : Type :=
| Resolved (a : A)
| Rejected.
Arguments Rejected {A}.

End Js.
Import Js.

(* ------------------------------------------------------------------ *)
(** ** Data model (the interfaces at the top of the file) *)

Module Coords.
Record t : Type := mk
  { latitude : float;
    longitude : float;
    accuracy : option float }.
End Coords.

(** [LocationObject] of expo-location, with the fields the screen reads. *)
Module LocationObject.
Record t : Type := mk
  { coords : Coords.t;
    timestamp : float }.
End LocationObject.

Module UserLocation.
Record t : Type := mk
  { id : jsstring;
    name : jsstring;
    latitude : float;
    longitude : float;
    timestamp : Z;
    color : jsstring }.
End UserLocation.

Module MapRegion.
Record t : Type := mk
  { latitude : float;
    longitude : float;
    latitudeDelta : float;
    longitudeDelta : float }.
End MapRegion.

(** ['standard' | 'satellite' | 'hybrid'] *)
Inductive MapType : Type := standard | satellite | hybrid.

Definition MapType_eqb (a b : MapType) : bool :=
  match a, b with
  | standard, standard | satellite, satellite | hybrid, hybrid => true
  | _, _ => false
  end.

(** The status field of a permission response. *)
Inductive PermissionStatus : Type := granted | denied | undetermined.

Definition isGranted (p : PermissionStatus) : bool :=
  match p with
  | granted => true
  | _ => false
  end.

(** [userColors] *)
Definition userColors : list jsstring :=
  [ str "#FF6B6B"; str "#4ECDC4"; str "#45B7D1"; str "#96CEB4";
    str "#FFEAA7"; str "#DDA0DD"; str "#98D8C8" ].

(** [userColors[i]] where the source indexes the palette with a literal; the
    indices used (0, 1, 2) are inside the palette, see [userColor_in_range]. *)
Definition userColor (i : nat) : jsstring := nth i userColors [].

(** The React state of the component, one field per [useState]. *)
Record ScreenState : Type := mkScreenState
  { location : option LocationObject.t;
    mapRegion : option MapRegion.t;
    mapType : MapType;
    groupCode : jsstring;
    userName : jsstring;
    isInGroup : bool;
    groupMembers : list UserLocation.t;
    showJoinModal : bool;
    isTracking : bool }.

Definition setLocation (v : option LocationObject.t) (s : ScreenState) :=
  mkScreenState v (mapRegion s) (mapType s) (groupCode s) (userName s)
    (isInGroup s) (groupMembers s) (showJoinModal s) (isTracking s).
Definition setMapRegion (v : option MapRegion.t) (s : ScreenState) :=
  mkScreenState (location s) v (mapType s) (groupCode s) (userName s)
    (isInGroup s) (groupMembers s) (showJoinModal s) (isTracking s).
Definition setMapType (v : MapType) (s : ScreenState) :=
  mkScreenState (location s) (mapRegion s) v (groupCode s) (userName s)
    (isInGroup s) (groupMembers s) (showJoinModal s) (isTracking s).
Definition setGroupCode (v : jsstring) (s : ScreenState) :=
  mkScreenState (location s) (mapRegion s) (mapType s) v (userName s)
    (isInGroup s) (groupMembers s) (showJoinModal s) (isTracking s).
Definition setUserName (v : jsstring) (s : ScreenState) :=
  mkScreenState (location s) (mapRegion s) (mapType s) (groupCode s) v
    (isInGroup s) (groupMembers s) (showJoinModal s) (isTracking s).
Definition setIsInGroup (v : bool) (s : ScreenState) :=
  mkScreenState (location s) (mapRegion s) (mapType s) (groupCode s)
    (userName s) v (groupMembers s) (showJoinModal s) (isTracking s).
Definition setGroupMembers (v : list UserLocation.t) (s : ScreenState) :=
  mkScreenState (location s) (mapRegion s) (mapType s) (groupCode s)
    (userName s) (isInGroup s) v (showJoinModal s) (isTracking s).
Definition setShowJoinModal (v : bool) (s : ScreenState) :=
  mkScreenState (location s) (mapRegion s) (mapType s) (groupCode s)
    (userName s) (isInGroup s) (groupMembers s) v (isTracking s).
Definition setIsTracking (v : bool) (s : ScreenState) :=
  mkScreenState (location s) (mapRegion s) (mapType s) (groupCode s)
    (userName s) (isInGroup s) (groupMembers s) (showJoinModal s) v.

(** The initial values given to [useState]. *)
Definition initialState : ScreenState :=
  mkScreenState None None standard [] [] false [] false false.

(* ------------------------------------------------------------------ *)
(** ** The world the handlers run in *)

(** Observable effects, in the order they happen. *)
Inductive Effect : Type :=
| Alert (title message : jsstring)        (* Alert.alert(title, message) *)
| ConsoleError (message : jsstring)
| ConsoleLog (message : jsstring)
| RequestForegroundPermissions            (* Location.requestForegroundPermissionsAsync() *)
| GetCurrentPosition                      (* Location.getCurrentPositionAsync(..) *)
| WatchPosition                           (* Location.watchPositionAsync(..) *)
| Remove (handle : nat).                  (* subscription.remove() *)

Definition isAlert (e : Effect) : bool :=
  match e with
  | Alert _ _ => true
  | _ => false
  end.

Definition isGetCurrentPosition (e : Effect) : bool :=
  match e with
  | GetCurrentPosition => true
  | _ => false
  end.

(** The callback handed to [watchPositionAsync] closes over the values of
    [isInGroup], [groupCode] and [userName] of the render in which
    [startLocationTracking] was created. *)
Record Callback : Type := mkCallback
  { cb_isInGroup : bool;
    cb_groupCode : jsstring;
    cb_userName : jsstring }.

Record World : Type := mkWorld
  { ui : ScreenState;
    (** [locationSubscription.current] *)
    locationSubscription : option nat;
    (** watches the platform is delivering positions for, by handle *)
    watches : list (nat * Callback);
    (** calls of [watchPositionAsync] whose promise has not settled *)
    pending : list Callback;
    (** the identity of the next subscription object the platform creates *)
    nextHandle : nat;
    trace : list Effect }.

Definition withUi (f : ScreenState -> ScreenState) (w : World) : World :=
  mkWorld (f (ui w)) (locationSubscription w) (watches w) (pending w)
    (nextHandle w) (trace w).

Definition emit (e : Effect) (w : World) : World :=
  mkWorld (ui w) (locationSubscription w) (watches w) (pending w)
    (nextHandle w) (trace w ++ [e]).

Definition alert (title message : jsstring) : World -> World :=
  emit (Alert title message).

Definition initialWorld : World :=
  mkWorld initialState None [] [] 0 [].

(** Number of alerts shown so far. *)
Definition alertCount (w : World) : nat := List.length (filter isAlert (trace w)).

(** Whether a one-shot position fetch was ever issued. *)
Definition fetchedPosition (w : World) : bool :=
  existsb isGetCurrentPosition (trace w).

(* ------------------------------------------------------------------ *)
(** ** The handlers *)

Definition regionAround (l : LocationObject.t) : MapRegion.t :=
  MapRegion.mk (Coords.latitude (LocationObject.coords l))
               (Coords.longitude (LocationObject.coords l))
               0.01%float 0.01%float.

(** [initializeLocation].  The two awaited calls are settled by the
    arguments: [perm] is the settlement of the permission request, [pos]
    the settlement of the one-shot position fetch (consulted only when the
    fetch is issued). *)
Definition initializeLocation
    (perm : Outcome PermissionStatus) (pos : Outcome LocationObject.t)
    (w : World) : World :=
  let failed (w : World) :=
    alert (str "Error") (str "Failed to get your location. Please try again.")
      (emit (ConsoleError (str "Error getting location:")) w) in
  let w := emit RequestForegroundPermissions w in
  match perm with
  | Rejected => failed w
  | Resolved status =>
      if negb (isGranted status) then
        alert (str "Permission Denied")
          (str "Location permission is required to use this feature.") w
      else
        let w := emit GetCurrentPosition w in
        match pos with
        | Rejected => failed w
        | Resolved currentLocation =>
            let w := withUi (setLocation (Some currentLocation)) w in
            withUi (setMapRegion (Some (regionAround currentLocation))) w
        end
  end.

(** [startLocationTracking], up to its [await]: the watch is requested with
    a callback closing over the render [s] the function belongs to. *)
Definition startLocationTracking (s : ScreenState) (w : World) : World :=
  let cb := mkCallback (isInGroup s) (groupCode s) (userName s) in
  let w := emit WatchPosition w in
  mkWorld (ui w) (locationSubscription w) (watches w) (pending w ++ [cb])
    (nextHandle w) (trace w).

Fixpoint removeAt (A : Type) (i : nat) (l : list A) : list A :=
  match l, i with
  | [], _ => []
  | _ :: rest, O => rest
  | x :: rest, S j => x :: removeAt j rest
  end.

(** [startLocationTracking], from its [await] on: the [i]-th outstanding
    request settles.  On success the new subscription object is stored in
    the ref (whatever the ref held before is overwritten) and the tracking
    flag is set; on failure the error is logged. *)
Definition startLocationTracking_settled
    (i : nat) (o : Outcome unit) (w : World) : World :=
  match nth_error (pending w) i with
  | None => w
  | Some cb =>
      let rest := removeAt i (pending w) in
      match o with
      | Resolved _ =>
          let h := nextHandle w in
          mkWorld (setIsTracking true (ui w)) (Some h)
            (watches w ++ [(h, cb)]) rest (S h) (trace w)
      | Rejected =>
          emit (ConsoleError (str "Error starting location tracking:"))
            (mkWorld (ui w) (locationSubscription w) (watches w) rest
               (nextHandle w) (trace w))
      end
  end.

Definition lookupWatch (h : nat) (l : list (nat * Callback)) : option Callback :=
  match find (fun p => Nat.eqb (fst p) h) l with
  | Some p => Some (snd p)
  | None => None
  end.

Definition dropWatch (h : nat) (l : list (nat * Callback)) : list (nat * Callback) :=
  filter (fun p => negb (Nat.eqb (fst p) h)) l.

(** [updateLocationInGroup]: the prototype only logs. *)
Definition updateLocationInGroup (name : jsstring) (w : World) : World :=
  emit (ConsoleLog (str "Updating " ++ name ++ str "'s location:")) w.

(** The callback of the watch with handle [h] fires with [newLocation]. *)
Definition onPosition (h : nat) (newLocation : LocationObject.t) (w : World) : World :=
  match lookupWatch h (watches w) with
  | None => w
  | Some cb =>
      let w := withUi (setLocation (Some newLocation)) w in
      let w := withUi (setMapRegion (Some (regionAround newLocation))) w in
      if cb_isInGroup cb && truthy (cb_groupCode cb) && truthy (cb_userName cb)
      then updateLocationInGroup (cb_userName cb) w
      else w
  end.

(** [stopLocationTracking] *)
Definition stopLocationTracking (w : World) : World :=
  let w :=
    match locationSubscription w with
    | Some h =>
        mkWorld (ui w) None (dropWatch h (watches w)) (pending w)
          (nextHandle w) (trace w ++ [Remove h])
    | None => w
    end in
  withUi (setIsTracking false) w.

(** The two demo members built by [simulateGroupMembers]; [t1] and [t2] are
    the two readings of [Date.now()]. *)
Definition demoMembers (l : LocationObject.t) (t1 t2 : Z) : list UserLocation.t :=
  let lat := Coords.latitude (LocationObject.coords l) in
  let lon := Coords.longitude (LocationObject.coords l) in
  [ UserLocation.mk (str "demo1") (str "Alice")
      (lat + 0.001)%float (lon + 0.001)%float t1 (userColor 1);
    UserLocation.mk (str "demo2") (str "Bob")
      (lat - 0.001)%float (lon + 0.002)%float t2 (userColor 2) ].

(** [simulateGroupMembers], in the render [s]. *)
Definition simulateGroupMembers (s : ScreenState) (t1 t2 : Z) (w : World) : World :=
  match location s with
  | None => w
  | Some l => withUi (setGroupMembers (demoMembers l t1 t2)) w
  end.

(** [joinGroup], in the render [ui w]. *)
Definition joinGroup (t1 t2 : Z) (w : World) : World :=
  let s := ui w in
  if negb (truthy (trim (groupCode s))) || negb (truthy (trim (userName s))) then
    alert (str "Error") (str "Please enter both group code and your name.") w
  else
    let w := withUi (setIsInGroup true) w in
    let w := withUi (setShowJoinModal false) w in
    let w := if negb (isTracking s) then startLocationTracking s w else w in
    let w := simulateGroupMembers s t1 t2 w in
    alert (str "Success")
      (str "Joined group " ++ [dquote] ++ groupCode s ++ [dquote]
         ++ str " as " ++ userName s ++ str "!") w.

(** [leaveGroup] *)
Definition leaveGroup (w : World) : World :=
  let w := withUi (setIsInGroup false) w in
  let w := withUi (setGroupCode []) w in
  let w := withUi (setUserName []) w in
  let w := withUi (setGroupMembers []) w in
  let w := stopLocationTracking w in
  alert (str "Left Group") (str "You have left the hiking group.") w.

Definition types : list MapType := [standard; satellite; hybrid].

(** The mode [toggleMapType] passes to [setMapType]; [None] would be
    [undefined]. *)
Definition nextMapType (m : MapType) : option MapType :=
  let currentIndex := indexOf MapType_eqb m types in
  let nextIndex := Z.rem (currentIndex + 1) (Z.of_nat (List.length types)) in
  at_ types nextIndex.

(** [toggleMapType] *)
Definition toggleMapType (w : World) : World :=
  match nextMapType (mapType (ui w)) with
  | Some m => withUi (setMapType m) w
  | None => w
  end.

(** The cleanup returned by the mount effect. *)
Definition unmount (w : World) : World :=
  match locationSubscription w with
  | Some h =>
      mkWorld (ui w) (locationSubscription w) (dropWatch h (watches w))
        (pending w) (nextHandle w) (trace w ++ [Remove h])
  | None => w
  end.

(* ------------------------------------------------------------------ *)
(** ** What the component renders

    The view keeps the structure of the returned tree: which container is
    shown, the markers, the group-status branch and which controls exist.
    Formatted texts (coordinates, accuracy, times) are left out. *)

Record Marker : Type := mkMarker
  { coordinate : float * float;
    title : jsstring;
    pinColor : jsstring }.

(** The two branches of [isInGroup ? ... : ...]. *)
Inductive GroupStatus : Type :=
| GroupContainer (code you : jsstring) (membersOnline : nat)  (* with the Leave Group button *)
| JoinButton.                                                 (* Join Hiking Group *)

Record MainView : Type := mkMainView
  { markers : list Marker;
    mapTypeShown : MapType;
    followsUserLocation : bool;
    groupStatus : GroupStatus;
    joinModalVisible : bool }.

Inductive View : Type :=
| LoadingContainer
| Container (v : MainView).

Definition memberMarker (m : UserLocation.t) : Marker :=
  mkMarker (UserLocation.latitude m, UserLocation.longitude m)
    (UserLocation.name m) (UserLocation.color m).

Definition render (s : ScreenState) : View :=
  match location s, mapRegion s with
  | Some l, Some _ =>
      Container
        (mkMainView
           (mkMarker (Coords.latitude (LocationObject.coords l),
                      Coords.longitude (LocationObject.coords l))
              (str "You are here") (userColor 0)
            :: map memberMarker (groupMembers s))
           (mapType s)
           (isTracking s)
           (if isInGroup s
            then GroupContainer (groupCode s) (userName s)
                   (List.length (groupMembers s) + 1)
            else JoinButton)
           (showJoinModal s))
  | _, _ => LoadingContainer
  end.

Definition showsGroupPanel (v : View) : bool :=
  match v with
  | Container m =>
      match groupStatus m with
      | GroupContainer _ _ _ => true
      | JoinButton => false
      end
  | LoadingContainer => false
  end.

Definition showsJoinButton (v : View) : bool :=
  match v with
  | Container m =>
      match groupStatus m with
      | GroupContainer _ _ _ => false
      | JoinButton => true
      end
  | LoadingContainer => false
  end.

Definition showsJoinModal (v : View) : bool :=
  match v with
  | Container m => joinModalVisible m
  | LoadingContainer => false
  end.

Definition isLoading (v : View) : bool :=
  match v with
  | LoadingContainer => true
  | Container _ => false
  end.

(* ------------------------------------------------------------------ *)
(** ** Events

    What can happen to a mounted screen: the user operates a control that
    is on screen, or the platform settles a watch request or delivers a
    position to a watch. *)

Inductive Event : Type :=
| PressJoinHikingGroup                          (* () => setShowJoinModal(true) *)
| PressCancel                                   (* () => setShowJoinModal(false) *)
| ChangeGroupCode (text : jsstring)             (* onChangeText={setGroupCode} *)
| ChangeUserName (text : jsstring)              (* onChangeText={setUserName} *)
| PressJoinGroup (t1 t2 : Z)                    (* onPress={joinGroup} *)
| PressLeaveGroup                               (* onPress={leaveGroup} *)
| PressMapType                                  (* onPress={toggleMapType} *)
| PressTracking                                 (* isTracking ? stop : start *)
| RegionChangeComplete (r : MapRegion.t)        (* onRegionChangeComplete={setMapRegion} *)
| WatchSettled (i : nat) (o : Outcome unit)
| Position (h : nat) (l : LocationObject.t).

Definition enabled (e : Event) (w : World) : bool :=
  let v := render (ui w) in
  match e with
  | PressJoinHikingGroup => showsJoinButton v
  | PressCancel | ChangeGroupCode _ | ChangeUserName _ | PressJoinGroup _ _ =>
      showsJoinModal v
  | PressLeaveGroup => showsGroupPanel v
  | PressMapType | PressTracking | RegionChangeComplete _ => negb (isLoading v)
  | WatchSettled i _ => Nat.ltb i (List.length (pending w))
  | Position h _ =>
      match lookupWatch h (watches w) with
      | Some _ => true
      | None => false
      end
  end.

Definition handle (e : Event) (w : World) : World :=
  match e with
  | PressJoinHikingGroup => withUi (setShowJoinModal true) w
  | PressCancel => withUi (setShowJoinModal false) w
  | ChangeGroupCode text => withUi (setGroupCode text) w
  | ChangeUserName text => withUi (setUserName text) w
  | PressJoinGroup t1 t2 => joinGroup t1 t2 w
  | PressLeaveGroup => leaveGroup w
  | PressMapType => toggleMapType w
  | PressTracking =>
      if isTracking (ui w) then stopLocationTracking w
      else startLocationTracking (ui w) w
  | RegionChangeComplete r => withUi (setMapRegion (Some r)) w
  | WatchSettled i o => startLocationTracking_settled i o w
  | Position h l => onPosition h l w
  end.

(** [steps w w']: [w'] is reached from [w] by events, each enabled when it
    happens. *)
Inductive steps (w : World) : World -> Prop :=
| steps_refl : steps w w
| steps_step : forall w' e,
    steps w w' -> enabled e w' = true -> steps w (handle e w').

(** The same, as a function of the list of events. *)
Fixpoint run (es : list Event) (w : World) : option World :=
  match es with
  | [] => Some w
  | e :: rest => if enabled e w then run rest (handle e w) else None
  end.

(** The world once the mount effect has run [initializeLocation]. *)
Definition mounted (perm : Outcome PermissionStatus)
    (pos : Outcome LocationObject.t) : World :=
  initializeLocation perm pos initialWorld.

Definition reachable (w : World) : Prop :=
  exists perm pos, steps (mounted perm pos) w.

(** Subscriptions the platform is delivering positions for. *)
Definition activeSubscriptions (w : World) : nat := List.length (watches w).

(* ------------------------------------------------------------------ *)
(** ** Sample data *)

Definition istanbul : LocationObject.t :=
  LocationObject.mk (Coords.mk 41.0082 28.9784 (Some 5%float)) 1700000000000%float.

Definition sampleWorld : World := mounted (Resolved granted) (Resolved istanbul).

(* ------------------------------------------------------------------ *)
(** ** Invariants, alerts, sample worlds and traces used below *)

Definition isSome (A : Type) (o : option A) : bool :=
  match o with
  | Some _ => true
  | None => false
  end.

(** What holds of the peer list: it is empty, or it is the pair of demo
    members built around some location. *)
Definition demoOrEmpty (ms : list UserLocation.t) : Prop :=
  ms = [] \/ exists l t1 t2, ms = demoMembers l t1 t2.

Record Inv (w : World) : Prop := mkInv
  { (** the tracking flag mirrors the ref *)
    inv_flag : isTracking (ui w) = isSome (locationSubscription w);
    (** the handle in the ref designates a watch that is delivering *)
    inv_handle : forall h, locationSubscription w = Some h ->
                           lookupWatch h (watches w) <> None;
    (** location and map region are acquired together *)
    inv_region : isSome (mapRegion (ui w)) = isSome (location (ui w));
    (** nothing has happened to a screen that is still loading *)
    inv_loading : location (ui w) = None ->
                  ui w = initialState /\ locationSubscription w = None /\
                  watches w = [] /\ pending w = [];
    inv_members : demoOrEmpty (groupMembers (ui w)) }.

Definition validationAlert : Effect :=
  Alert (str "Error") (str "Please enter both group code and your name.").

Definition successAlert (s : ScreenState) : Effect :=
  Alert (str "Success")
    (str "Joined group " ++ [dquote] ++ groupCode s ++ [dquote]
       ++ str " as " ++ userName s ++ str "!").

(** What [joinGroup] does about the subscription in the render [ui w]:
    with the tracking flag set, nothing; otherwise one more watch request
    is outstanding, and once it resolves the ref holds the new
    subscription, which is delivering, and the tracking flag is set. *)
Definition startsSubscription (w w' : World) : Prop :=
  if isTracking (ui w) then
    pending w' = pending w /\ watches w' = watches w /\
    locationSubscription w' = locationSubscription w /\
    trace w' = trace w ++ [successAlert (ui w)]
  else
    pending w' =
      pending w ++ [mkCallback (isInGroup (ui w)) (groupCode (ui w)) (userName (ui w))] /\
    trace w' = trace w ++ [WatchPosition; successAlert (ui w)] /\
    let w'' := startLocationTracking_settled
                 (List.length (pending w)) (Resolved tt) w' in
    locationSubscription w'' = Some (nextHandle w) /\
    isTracking (ui w'') = true /\
    lookupWatch (nextHandle w) (watches w'') <> None.

(** The join form filled in on the sample screen. *)
Definition filledForm (code you : jsstring) : list Event :=
  [PressJoinHikingGroup; ChangeGroupCode code; ChangeUserName you].

Definition readyWorld : World :=
  handle (ChangeUserName (str "Ann"))
    (handle (ChangeGroupCode (str "HIKE123"))
       (handle PressJoinHikingGroup sampleWorld)).

Definition blankCodeWorld : World :=
  handle (ChangeUserName (str "Ann"))
    (handle (ChangeGroupCode (str " "))
       (handle PressJoinHikingGroup sampleWorld)).

(** A world with names entered but no location reading. *)
Definition unlocatedWorld (code you : jsstring) : World :=
  withUi (setUserName you) (withUi (setGroupCode code) initialWorld).

Definition permissionDeniedAlert : Effect :=
  Alert (str "Permission Denied")
    (str "Location permission is required to use this feature.").

Definition joinedWorld : World := joinGroup 1 2 readyWorld.

Definition alice : UserLocation.t :=
  UserLocation.mk (str "demo1") (str "Alice")
    (41.0082 + 0.001)%float (28.9784 + 0.001)%float 1 (str "#4ECDC4").

(** Whether event [e], happening in [w], calls [watchPositionAsync]. *)
Definition requestsWatch (e : Event) (w : World) : bool :=
  match e with
  | PressTracking => negb (isTracking (ui w))
  | PressJoinGroup _ _ =>
      truthy (trim (groupCode (ui w))) && truthy (trim (userName (ui w)))
      && negb (isTracking (ui w))
  | _ => false
  end.

(** Runs in which a watch is requested only while no earlier request is
    still outstanding. *)
Inductive serialSteps (w : World) : World -> Prop :=
| serial_refl : serialSteps w w
| serial_step : forall w' e,
    serialSteps w w' -> enabled e w' = true ->
    (requestsWatch e w' = true -> pending w' = []) ->
    serialSteps w (handle e w').

Record SerialInv (w : World) : Prop := mkSerialInv
  { ser_flag : isTracking (ui w) = isSome (locationSubscription w);
    ser_count : List.length (watches w) + List.length (pending w) <= 1;
    ser_ref : match locationSubscription w with
              | Some h => exists cb, watches w = [(h, cb)]
              | None => watches w = []
              end }.

(** Two presses of Start Tracking before the first request resolves. *)
Definition doubleStart : list Event :=
  [PressTracking; PressTracking;
   WatchSettled 0 (Resolved tt); WatchSettled 0 (Resolved tt)].

(** Start Tracking, then joining a group before the request resolves. *)
Definition startThenJoin : list Event :=
  PressTracking :: filledForm (str "HIKE123") (str "Ann")
    ++ [PressJoinGroup 1 2;
        WatchSettled 0 (Resolved tt); WatchSettled 0 (Resolved tt)].

Ltac by_evaluation := vm_compute; first [reflexivity | discriminate].

Definition doubleStarted : World :=
  startLocationTracking_settled 0 (Resolved tt)
    (startLocationTracking_settled 0 (Resolved tt)
       (handle PressTracking (handle PressTracking sampleWorld))).

Definition startedThenJoined : World :=
  startLocationTracking_settled 0 (Resolved tt)
    (startLocationTracking_settled 0 (Resolved tt)
       (joinGroup 1 2
          (handle (ChangeUserName (str "Ann"))
             (handle (ChangeGroupCode (str "HIKE123"))
                (handle PressJoinHikingGroup
                   (handle PressTracking sampleWorld)))))).

(* ------------------------------------------------------------------ *)
(** ** Further definitions: the rest of the rendered tree, the join form
       and the worlds used as examples *)

(** A string made of white space only (the empty string included). *)
Definition blank (s : jsstring) : bool := forallb isWhiteSpace s.

(** The description of the user's own marker: [userName || 'Your location']. *)
Definition userMarkerDescription (s : ScreenState) : jsstring :=
  if truthy (userName s) then userName s else str "Your location".

(** The [onPress] of the tracking button: [isTracking ? stop : start]. *)
Definition trackingButtonStops (s : ScreenState) : bool := isTracking s.

(** The message [updateLocationInGroup] logs for [name]. *)
Definition updateLog (name : jsstring) : Effect :=
  ConsoleLog (str "Updating " ++ name ++ str "'s location:").

Definition errorAlert : Effect :=
  Alert (str "Error") (str "Failed to get your location. Please try again.").

(** What the join form and the group state keep, whatever happens on the
    screen. *)
Record FormInv (w : World) : Prop := mkFormInv
  { (** the join form is open only while not in a group *)
    fi_modal : showJoinModal (ui w) = true -> isInGroup (ui w) = false;
    (** in a group, code and name are the validated ones and both demo
        members are listed *)
    fi_group : isInGroup (ui w) = true ->
               blank (groupCode (ui w)) = false /\
               blank (userName (ui w)) = false /\
               exists l t1 t2, groupMembers (ui w) = demoMembers l t1 t2;
    (** out of a group, nobody is listed *)
    fi_nogroup : isInGroup (ui w) = false -> groupMembers (ui w) = [];
    (** the next subscription object is a new one *)
    fi_fresh : forall p, In p (watches w) -> fst p < nextHandle w }.

(** Joined on the sample screen, the watch resolved, then tracking stopped
    with the button. *)
Definition stoppedInGroup : list Event :=
  filledForm (str "HIKE123") (str "Ann")
    ++ [PressJoinGroup 1 2; WatchSettled 0 (Resolved tt); PressTracking].

Definition stoppedInGroupWorld : World :=
  stopLocationTracking
    (startLocationTracking_settled 0 (Resolved tt) joinedWorld).

(** Start Tracking pressed on the sample screen, the request outstanding. *)
Definition startRequestedWorld : World := handle PressTracking sampleWorld.

(** Start Tracking pressed and resolved on the sample screen. *)
Definition trackingWorld : World :=
  startLocationTracking_settled 0 (Resolved tt) startRequestedWorld.

Definition ankara : LocationObject.t :=
  LocationObject.mk (Coords.mk 39.9334 32.8597 None) 1700000010000%float.

(** The reading [initializeLocation] acquires: there is one only when the
    permission request resolves with granted and the position fetch
    resolves. *)
Definition acquired (perm : Outcome PermissionStatus)
    (pos : Outcome LocationObject.t) : option LocationObject.t :=
  match perm, pos with
  | Resolved granted, Resolved l => Some l
  | _, _ => None
  end.

Definition permissionResolvedGranted (perm : Outcome PermissionStatus) : bool :=
  match perm with
  | Resolved granted => true
  | _ => false
  end.

Definition isPressMapType (e : Event) : bool :=
  match e with
  | PressMapType => true
  | _ => false
  end.

(** The events whose handler shows an alert: submitting the join form and
    leaving the group. *)
Definition alerts (e : Event) : bool :=
  match e with
  | PressJoinGroup _ _ | PressLeaveGroup => true
  | _ => false
  end.

(** The alert [initializeLocation] shows when it acquires no reading: the
    permission alert when the request resolves without granting, the
    generic one when a request fails. *)
Definition mountAlert (perm : Outcome PermissionStatus) : Effect :=
  match perm with
  | Resolved granted | Rejected => errorAlert
  | Resolved _ => permissionDeniedAlert
  end.

(* ------------------------------------------------------------------ *)
(** ** Basic facts about the helpers *)

Lemma userColor_in_range :
  nth_error userColors 0 = Some (userColor 0) /\
  nth_error userColors 1 = Some (userColor 1) /\
  nth_error userColors 2 = Some (userColor 2).
Proof. repeat split. Qed.

Lemma trim_empty : trim [] = [].
Proof. reflexivity. Qed.

Lemma truthy_trim_nonempty (s : jsstring) : truthy (trim s) = true -> s <> [].
Proof. intros H ->. discriminate H. Qed.

Lemma lookupWatch_dropWatch (h : nat) (l : list (nat * Callback)) :
  lookupWatch h (dropWatch h l) = None.
Proof.
  unfold lookupWatch, dropWatch.
  induction l as [|[k cb] l IH]; simpl; [reflexivity|].
  destruct (Nat.eqb k h) eqn:E; simpl; [exact IH|].
  rewrite E. exact IH.
Qed.

Lemma lookupWatch_snoc (h : nat) (cb : Callback) (l : list (nat * Callback)) :
  lookupWatch h (l ++ [(h, cb)]) <> None.
Proof.
  unfold lookupWatch.
  induction l as [|[k c] l IH]; simpl.
  - rewrite Nat.eqb_refl. discriminate.
  - destruct (Nat.eqb k h); [discriminate|exact IH].
Qed.

Lemma nth_error_snoc (A : Type) (l : list A) (x : A) :
  nth_error (l ++ [x]) (List.length l) = Some x.
Proof. induction l; simpl; auto. Qed.

Lemma run_steps (es : list Event) :
  forall w w', run es w = Some w' -> steps w w'.
Proof.
  assert (trans : forall a b, steps a b -> forall c, steps b c -> steps a c).
  { intros a b Hab c Hbc. induction Hbc; [assumption|].
    now apply steps_step. }
  induction es as [|e es IH]; simpl; intros w w' H.
  - injection H as <-. apply steps_refl.
  - destruct (enabled e w) eqn:E; [|discriminate].
    apply trans with (handle e w).
    + apply (steps_step (w := w)); [apply steps_refl|exact E].
    + now apply IH.
Qed.

(* ------------------------------------------------------------------ *)
(** ** Invariants of the mounted screen *)

Lemma Inv_mounted perm pos : Inv (mounted perm pos).
Proof.
  unfold mounted, initializeLocation.
  destruct perm as [status|]; [destruct status; [destruct pos|..]|];
    (split; simpl; try reflexivity; try discriminate; try (now left);
     try (intros _; repeat split)).
Qed.

Lemma enabled_not_loading (e : Event) (w : World) :
  Inv w -> enabled e w = true -> location (ui w) <> None.
Proof.
  intros I E L.
  destruct (inv_loading I L) as (Hui & _ & Hw & Hp).
  destruct e; unfold enabled, render in E; rewrite ?L in E; simpl in E;
    try discriminate.
  - rewrite Hp in E. destruct i; discriminate.
  - rewrite Hw in E. discriminate.
Qed.

Lemma Inv_step (e : Event) (w : World) :
  Inv w -> enabled e w = true -> Inv (handle e w).
Proof.
  intros I E.
  pose proof (enabled_not_loading e I E) as L.
  destruct I as [Hflag Hhandle Hregion _ Hmem].
  destruct w as [[loc reg mt gc un ig gm sm tr] ref ws pd nh trc].
  simpl in *.
  destruct loc as [l|]; [clear L|now elim L].
  destruct reg as [r|]; [|discriminate Hregion].
  destruct e; simpl.
  - (* PressJoinHikingGroup *)
    split; simpl; auto; discriminate.
  - (* PressCancel *)
    split; simpl; auto; discriminate.
  - (* ChangeGroupCode *)
    split; simpl; auto; discriminate.
  - (* ChangeUserName *)
    split; simpl; auto; discriminate.
  - (* PressJoinGroup *)
    unfold joinGroup; simpl.
    destruct (negb (truthy (trim gc)) || negb (truthy (trim un))).
    + split; simpl; auto; discriminate.
    + destruct tr; simpl;
        (split; simpl; auto; try discriminate;
         right; exists l, t1, t2; reflexivity).
  - (* PressLeaveGroup *)
    unfold leaveGroup, stopLocationTracking; simpl.
    destruct ref as [h|]; simpl;
      (split; simpl; auto; try discriminate; now left).
  - (* PressMapType *)
    unfold toggleMapType; simpl.
    destruct (nextMapType mt); split; simpl; auto; discriminate.
  - (* PressTracking *)
    destruct tr; unfold stopLocationTracking, startLocationTracking; simpl.
    + destruct ref as [h|]; simpl; split; simpl; auto; discriminate.
    + split; simpl; auto; discriminate.
  - (* RegionChangeComplete *)
    split; simpl; auto; discriminate.
  - (* WatchSettled *)
    unfold startLocationTracking_settled; simpl.
    destruct (nth_error pd i) as [cb|]; simpl.
    + destruct o; simpl.
      * split; simpl; auto; try discriminate.
        intros h [= <-]. apply lookupWatch_snoc.
      * split; simpl; auto; discriminate.
    + split; simpl; auto; discriminate.
  - (* Position *)
    unfold onPosition; simpl.
    destruct (lookupWatch h ws) as [cb|]; simpl.
    + destruct (cb_isInGroup cb && truthy (cb_groupCode cb)
                && truthy (cb_userName cb)); simpl;
        split; simpl; auto; discriminate.
    + split; simpl; auto; discriminate.
Qed.

Lemma Inv_steps (w w' : World) : Inv w -> steps w w' -> Inv w'.
Proof.
  intros I S. induction S; [assumption|]. now apply Inv_step.
Qed.

Lemma Inv_reachable (w : World) : reachable w -> Inv w.
Proof.
  intros (perm & pos & S). exact (Inv_steps (Inv_mounted perm pos) S).
Qed.

(* ------------------------------------------------------------------ *)
(** ** Map display mode *)

Lemma nextMapType_defined (m : MapType) : nextMapType m <> None.
Proof. destruct m; discriminate. Qed.

(** C5: [toggleMapType] advances the mode in the fixed cyclic order
    standard, satellite, hybrid (and back to standard) and changes nothing
    else, so three presses bring every starting mode, and the whole world,
    back to where it was. *)
Theorem toggleMapType_three_times :
  (forall w, mapType (ui w) = standard ->
             mapType (ui (toggleMapType w)) = satellite) /\
  (forall w, mapType (ui w) = satellite ->
             mapType (ui (toggleMapType w)) = hybrid) /\
  (forall w, mapType (ui w) = hybrid ->
             mapType (ui (toggleMapType w)) = standard) /\
  (forall w, toggleMapType (toggleMapType (toggleMapType w)) = w).
Proof.
  repeat split; intros w; try (intros H; unfold toggleMapType; now rewrite H).
  destruct w as [[loc reg mt gc un ig gm sm tr] ref ws pd nh trc].
  destruct mt; reflexivity.
Qed.

(* ------------------------------------------------------------------ *)
(** ** Stopping and leaving *)

(** C10: [stopLocationTracking], in any world (with or without a
    subscription in the ref), leaves the ref null and the tracking flag
    false, touches no other piece of screen state, and a second call
    changes nothing more. *)
Theorem stopLocationTracking_idempotent (w : World) :
  locationSubscription (stopLocationTracking w) = None /\
  isTracking (ui (stopLocationTracking w)) = false /\
  ui (stopLocationTracking w) = setIsTracking false (ui w) /\
  pending (stopLocationTracking w) = pending w /\
  stopLocationTracking (stopLocationTracking w) = stopLocationTracking w.
Proof.
  unfold stopLocationTracking.
  destruct w as [s [h|] ws pd nh trc]; simpl; repeat split.
Qed.

(** C2: [leaveGroup], in any world, empties the group code, the user name
    and the peer list, clears the in-group flag, and stops the recurring
    subscription: the ref is null, the tracking flag false, and the watch
    the ref designated is no longer delivering. *)
Theorem leaveGroup_clears (w : World) :
  groupCode (ui (leaveGroup w)) = [] /\
  userName (ui (leaveGroup w)) = [] /\
  groupMembers (ui (leaveGroup w)) = [] /\
  isInGroup (ui (leaveGroup w)) = false /\
  locationSubscription (leaveGroup w) = None /\
  isTracking (ui (leaveGroup w)) = false /\
  (forall h, locationSubscription w = Some h ->
             lookupWatch h (watches (leaveGroup w)) = None /\
             In (Remove h) (trace (leaveGroup w))).
Proof.
  unfold leaveGroup, stopLocationTracking.
  destruct w as [s [h|] ws pd nh trc]; simpl; repeat split;
    try discriminate.
  - injection H as <-. apply lookupWatch_dropWatch.
  - injection H as <-. apply in_or_app. left. apply in_or_app. right.
    now left.
Qed.

(* ------------------------------------------------------------------ *)
(** ** Joining *)

(** C3: when the group code or the user name is the empty string,
    [joinGroup] shows the validation alert and changes nothing: the whole
    screen state (in-group flag, peer list, modal visibility, tracking flag
    and the rest), the subscription handle and the platform side all keep
    their values. *)
Theorem joinGroup_empty_input (t1 t2 : Z) (w : World) :
  groupCode (ui w) = [] \/ userName (ui w) = [] ->
  trace (joinGroup t1 t2 w) = trace w ++ [validationAlert] /\
  ui (joinGroup t1 t2 w) = ui w /\
  locationSubscription (joinGroup t1 t2 w) = locationSubscription w /\
  watches (joinGroup t1 t2 w) = watches w /\
  pending (joinGroup t1 t2 w) = pending w.
Proof.
  intros H. unfold joinGroup.
  assert (G : negb (truthy (trim (groupCode (ui w))))
              || negb (truthy (trim (userName (ui w)))) = true).
  { destruct H as [-> | ->]; [reflexivity|].
    rewrite trim_empty. simpl. apply orb_true_r. }
  rewrite G. repeat split.
Qed.

Lemma joinGroup_empty_input_witness :
  ui (joinGroup 1 2 sampleWorld) = ui sampleWorld.
Proof.
  apply (joinGroup_empty_input 1 2 sampleWorld). left. reflexivity.
Defined.

Lemma joinGroup_accepts (t1 t2 : Z) (w : World) :
  truthy (trim (groupCode (ui w))) = true ->
  truthy (trim (userName (ui w))) = true ->
  joinGroup t1 t2 w =
  alert (str "Success")
    (str "Joined group " ++ [dquote] ++ groupCode (ui w) ++ [dquote]
       ++ str " as " ++ userName (ui w) ++ str "!")
    (simulateGroupMembers (ui w) t1 t2
       (let w1 := withUi (setShowJoinModal false) (withUi (setIsInGroup true) w) in
        if negb (isTracking (ui w)) then startLocationTracking (ui w) w1 else w1)).
Proof.
  intros Hc Hn. unfold joinGroup. rewrite Hc, Hn. reflexivity.
Qed.

Lemma joinGroup_startsSubscription (t1 t2 : Z) (w : World) :
  truthy (trim (groupCode (ui w))) = true ->
  truthy (trim (userName (ui w))) = true ->
  startsSubscription w (joinGroup t1 t2 w).
Proof.
  intros Hc Hn. rewrite (joinGroup_accepts t1 t2 w Hc Hn).
  unfold startsSubscription, simulateGroupMembers, startLocationTracking_settled.
  destruct w as [[loc reg mt gc un ig gm sm tr] ref ws pd nh trc]; simpl.
  destruct tr; simpl.
  - destruct loc; simpl; repeat split.
  - destruct loc; simpl; rewrite nth_error_snoc; simpl;
      (repeat split; [now rewrite <- app_assoc | apply lookupWatch_snoc]).
Qed.

(** C1 (as the code has it): in every world where the group code and the
    user name are non-empty after trimming white space and a location
    reading has been acquired, [joinGroup] sets the in-group flag, makes the
    peer list exactly the two fabricated members, and, when the tracking
    flag is not set, requests the recurring location watch (which, once
    resolved, is held by the ref with the tracking flag set). *)
Theorem joinGroup_joins (t1 t2 : Z) (w : World) (l : LocationObject.t) :
  truthy (trim (groupCode (ui w))) = true ->
  truthy (trim (userName (ui w))) = true ->
  location (ui w) = Some l ->
  isInGroup (ui (joinGroup t1 t2 w)) = true /\
  groupMembers (ui (joinGroup t1 t2 w)) = demoMembers l t1 t2 /\
  List.length (groupMembers (ui (joinGroup t1 t2 w))) = 2 /\
  startsSubscription w (joinGroup t1 t2 w).
Proof.
  intros Hc Hn Hl.
  split; [|split; [|split]];
    try (now apply joinGroup_startsSubscription);
    rewrite (joinGroup_accepts t1 t2 w Hc Hn);
    unfold simulateGroupMembers; rewrite Hl;
    destruct (negb (isTracking (ui w))); reflexivity.
Qed.

Lemma joinGroup_joins_witness :
  isInGroup (ui (joinGroup 1 2 readyWorld)) = true /\
  groupMembers (ui (joinGroup 1 2 readyWorld)) = demoMembers istanbul 1 2 /\
  List.length (groupMembers (ui (joinGroup 1 2 readyWorld))) = 2 /\
  startsSubscription readyWorld (joinGroup 1 2 readyWorld).
Proof.
  exact (@joinGroup_joins 1 2 readyWorld istanbul eq_refl eq_refl eq_refl).
Defined.

(** C1 as stated fails twice: a group code of one space is non-empty, yet
    the form is rejected (in a world reached through the screen); and with
    no location reading the flag is set but no peer is added. *)
Lemma joinGroup_nonempty_counterexample :
  run (filledForm (str " ") (str "Ann")) sampleWorld = Some blankCodeWorld /\
  groupCode (ui blankCodeWorld) <> [] /\
  userName (ui blankCodeWorld) <> [] /\
  isInGroup (ui (joinGroup 1 2 blankCodeWorld)) = false /\
  groupMembers (ui (joinGroup 1 2 blankCodeWorld)) = [] /\
  pending (joinGroup 1 2 blankCodeWorld) = [] /\
  groupCode (ui (unlocatedWorld (str "HIKE123") (str "Ann"))) <> [] /\
  userName (ui (unlocatedWorld (str "HIKE123") (str "Ann"))) <> [] /\
  isInGroup (ui (joinGroup 1 2 (unlocatedWorld (str "HIKE123") (str "Ann")))) = true /\
  groupMembers (ui (joinGroup 1 2 (unlocatedWorld (str "HIKE123") (str "Ann")))) = [].
Proof.
  repeat split; discriminate.
Qed.

(** The handler taken on its own, in a state without a location reading:
    when the group code and the user name pass the validation, the
    in-group flag is set and the watch is requested as usual, and the peer
    list is left as it was, since the simulation step returns before
    building any member.  (No such state lets the form be submitted, see
    [joinGroup_only_with_location].) *)
Lemma joinGroup_without_location (t1 t2 : Z) (w : World) :
  truthy (trim (groupCode (ui w))) = true ->
  truthy (trim (userName (ui w))) = true ->
  location (ui w) = None ->
  isInGroup (ui (joinGroup t1 t2 w)) = true /\
  groupMembers (ui (joinGroup t1 t2 w)) = groupMembers (ui w) /\
  startsSubscription w (joinGroup t1 t2 w).
Proof.
  intros Hc Hn Hl.
  split; [|split];
    try (now apply joinGroup_startsSubscription);
    rewrite (joinGroup_accepts t1 t2 w Hc Hn);
    unfold simulateGroupMembers; rewrite Hl;
    destruct (negb (isTracking (ui w))); reflexivity.
Qed.

(** A screen without a location reading is untouched: its peer list is
    empty and nothing is tracked. *)
Lemma reachable_unlocated (w : World) :
  reachable w -> location (ui w) = None ->
  groupMembers (ui w) = [] /\ isTracking (ui w) = false /\
  locationSubscription w = None.
Proof.
  intros R L. destruct (inv_loading (Inv_reachable R) L) as (Hui & Href & _).
  rewrite Hui. repeat split. exact Href.
Qed.

(* ------------------------------------------------------------------ *)
(** ** Permission denied *)

Lemma loading_is_stuck (w w' : World) :
  Inv w -> location (ui w) = None -> steps w w' -> w' = w.
Proof.
  intros I L S. induction S as [|w' e S IH E]; [reflexivity|].
  subst w'. now elim (enabled_not_loading e I E).
Qed.

(** C4: when the permission request resolves with a status other than
    granted, [initializeLocation] shows one alert (the permission one) and
    returns: no position is fetched and the screen state is not touched.
    On the freshly mounted screen this leaves location and map region
    null, so the loading container is rendered, and since that container
    offers no control and no watch exists, every later world is this one:
    the screen stays loading, with its single alert, for good. *)
Theorem initializeLocation_denied
    (status : PermissionStatus) (pos : Outcome LocationObject.t) :
  status <> granted ->
  (forall w0,
     ui (initializeLocation (Resolved status) pos w0) = ui w0 /\
     trace (initializeLocation (Resolved status) pos w0) =
       trace w0 ++ [RequestForegroundPermissions; permissionDeniedAlert]) /\
  alertCount (mounted (Resolved status) pos) = 1 /\
  fetchedPosition (mounted (Resolved status) pos) = false /\
  location (ui (mounted (Resolved status) pos)) = None /\
  mapRegion (ui (mounted (Resolved status) pos)) = None /\
  render (ui (mounted (Resolved status) pos)) = LoadingContainer /\
  (forall w', steps (mounted (Resolved status) pos) w' ->
              w' = mounted (Resolved status) pos).
Proof.
  intros H.
  assert (G : isGranted status = false) by (destruct status; [now elim H|..]; reflexivity).
  assert (M : mounted (Resolved status) pos =
              alert (str "Permission Denied")
                (str "Location permission is required to use this feature.")
                (emit RequestForegroundPermissions initialWorld)).
  { unfold mounted, initializeLocation. now rewrite G. }
  split; [|rewrite M; repeat split].
  - intros w0. unfold initializeLocation. rewrite G. simpl.
    split; [reflexivity|]. now rewrite <- app_assoc.
  - intros w' S. rewrite <- M in *.
    apply (loading_is_stuck (Inv_mounted _ _)); [|exact S].
    now rewrite M.
Qed.

Lemma initializeLocation_denied_witness :
  alertCount (mounted (Resolved denied) (Resolved istanbul)) = 1 /\
  fetchedPosition (mounted (Resolved denied) (Resolved istanbul)) = false /\
  render (ui (mounted (Resolved denied) (Resolved istanbul))) = LoadingContainer.
Proof.
  destruct (@initializeLocation_denied denied (Resolved istanbul))
    as (_ & A & F & _ & _ & R & _); [discriminate|].
  exact (conj A (conj F R)).
Defined.

(* ------------------------------------------------------------------ *)
(** ** Peer colours *)

(** C7 (as the code has it): in every world reached through the screen, the
    peer at position [i] of the peer list has the palette colour at
    position [i + 1], and that is the pin colour of its marker, which is
    marker [i + 1] on the map; palette entry 0 is the colour of the user's
    own marker, the first marker on the map. *)
Theorem peer_color_by_position (w : World) :
  reachable w ->
  (forall i m, nth_error (groupMembers (ui w)) i = Some m ->
     nth_error userColors (S i) = Some (UserLocation.color m)) /\
  (forall v, render (ui w) = Container v ->
     (exists u, nth_error (markers v) 0 = Some u /\
                title u = str "You are here" /\
                nth_error userColors 0 = Some (pinColor u)) /\
     (forall i m, nth_error (groupMembers (ui w)) i = Some m ->
        exists k, nth_error (markers v) (S i) = Some k /\
                  title k = UserLocation.name m /\
                  pinColor k = UserLocation.color m /\
                  nth_error userColors (S i) = Some (pinColor k))).
Proof.
  intros R.
  assert (P : forall i m, nth_error (groupMembers (ui w)) i = Some m ->
                nth_error userColors (S i) = Some (UserLocation.color m)).
  { intros i m H.
    destruct (inv_members (Inv_reachable R)) as [E | (l & t1 & t2 & E)];
      rewrite E in H.
    - destruct i; discriminate H.
    - destruct i as [|[|i]]; simpl in H.
      + injection H as <-. reflexivity.
      + injection H as <-. reflexivity.
      + destruct i; discriminate H. }
  split; [exact P|].
  intros v V. unfold render in V.
  destruct (location (ui w)) as [l|]; [|discriminate V].
  destruct (mapRegion (ui w)); [|discriminate V].
  injection V as <-. simpl. split.
  - eexists. repeat split.
  - intros i m H. exists (memberMarker m).
    split; [now apply map_nth_error|].
    split; [reflexivity|]. split; [reflexivity|]. now apply P.
Qed.

Lemma joinedWorld_reachable : reachable joinedWorld.
Proof.
  exists (Resolved granted), (Resolved istanbul).
  apply (run_steps (filledForm (str "HIKE123") (str "Ann") ++ [PressJoinGroup 1 2])).
  reflexivity.
Qed.

Lemma peer_color_by_position_witness :
  nth_error userColors 1 = Some (UserLocation.color alice).
Proof.
  exact (proj1 (@peer_color_by_position joinedWorld joinedWorld_reachable)
           0 alice eq_refl).
Defined.

(** C7 as stated fails on the first peer: in the world reached by joining
    on the sample screen, the peer at position 0 has palette entry 1, which
    differs from palette entry 0. *)
Lemma peer_color_counterexample :
  run (filledForm (str "HIKE123") (str "Ann") ++ [PressJoinGroup 1 2]) sampleWorld
    = Some joinedWorld /\
  nth_error (groupMembers (ui joinedWorld)) 0 = Some alice /\
  UserLocation.color alice = str "#4ECDC4" /\
  nth_error userColors 0 = Some (str "#FF6B6B") /\
  nth_error userColors 0 <> Some (UserLocation.color alice).
Proof.
  repeat split. discriminate.
Qed.

(* ------------------------------------------------------------------ *)
(** ** Group-dependent UI *)

(** C8 (as the code has it): in every world reached through the screen the
    group status panel is displayed exactly when the in-group flag is true,
    and the join button exactly when the flag is false and the screen is
    past its loading container (location and map region present); while
    loading, neither is displayed.  So the panel is displayed only when the
    flag is true and the button only when it is false, in every screen
    state; and every operation leads from a reached world to a reached
    world, where the same holds. *)
Theorem group_ui_follows_flag :
  (forall w, reachable w ->
     showsGroupPanel (render (ui w)) = isInGroup (ui w) /\
     showsJoinButton (render (ui w)) =
       negb (isInGroup (ui w)) && negb (isLoading (render (ui w)))) /\
  (forall s, showsGroupPanel (render s) = true -> isInGroup s = true) /\
  (forall s, showsJoinButton (render s) = true -> isInGroup s = false) /\
  (forall s, isLoading (render s) = true ->
     showsGroupPanel (render s) = false /\ showsJoinButton (render s) = false) /\
  (forall w e, reachable w -> enabled e w = true -> reachable (handle e w)).
Proof.
  split; [|split; [|split; [|split]]].
  - intros w R. pose proof (Inv_reachable R) as I.
    destruct (location (ui w)) as [l|] eqn:L.
    + pose proof (inv_region I) as G. rewrite L in G.
      unfold render. rewrite L.
      destruct (mapRegion (ui w)); [|discriminate G].
      destruct (isInGroup (ui w)); split; reflexivity.
    + destruct (inv_loading I L) as (-> & _). split; reflexivity.
  - intros s. unfold render.
    destruct (location s), (mapRegion s), (isInGroup s); simpl; congruence.
  - intros s. unfold render.
    destruct (location s), (mapRegion s), (isInGroup s); simpl; congruence.
  - intros s. unfold render.
    destruct (location s), (mapRegion s); simpl; try discriminate;
      split; reflexivity.
  - intros w e (perm & pos & S) E. exists perm, pos. now apply steps_step.
Qed.

(** C8 as stated fails while the screen is loading: after a denied
    permission request the in-group flag is false, yet no join button is
    displayed. *)
Lemma join_button_counterexample :
  isInGroup (ui (mounted (Resolved denied) Rejected)) = false /\
  showsJoinButton (render (ui (mounted (Resolved denied) Rejected))) = false /\
  render (ui (mounted (Resolved denied) Rejected)) = LoadingContainer.
Proof.
  repeat split.
Qed.

(* ------------------------------------------------------------------ *)
(** ** One subscription at a time? *)

(** The tracking flag is true exactly when the ref holds a handle. *)
Lemma tracking_flag_mirrors_handle (w : World) :
  reachable w ->
  (isTracking (ui w) = true <-> locationSubscription w <> None).
Proof.
  intros R. rewrite (inv_flag (Inv_reachable R)).
  destruct (locationSubscription w); simpl; split; congruence.
Qed.

Lemma dropWatch_single (h : nat) (cb : Callback) : dropWatch h [(h, cb)] = [].
Proof. unfold dropWatch. simpl. now rewrite Nat.eqb_refl. Qed.

Lemma SerialInv_mounted perm pos : SerialInv (mounted perm pos).
Proof.
  unfold mounted, initializeLocation.
  destruct perm as [status|]; [destruct status; [destruct pos|..]|];
    split; simpl; auto.
Qed.

Lemma SerialInv_step (e : Event) (w : World) :
  SerialInv w ->
  (requestsWatch e w = true -> pending w = []) ->
  SerialInv (handle e w).
Proof.
  intros [Hflag Hcount Href] Q.
  destruct w as [[loc reg mt gc un ig gm sm tr] ref ws pd nh trc].
  simpl in *.
  destruct e; simpl in *; try solve [split; simpl; auto].
  - (* PressJoinGroup *)
    unfold joinGroup, simulateGroupMembers; simpl.
    destruct (truthy (trim gc)), (truthy (trim un)); simpl in *;
      try solve [split; simpl; auto].
    destruct tr; simpl in *.
    + destruct loc; split; simpl; auto.
    + rewrite (Q eq_refl) in *. destruct ref; [discriminate Hflag|].
      rewrite Href. destruct loc; split; simpl; auto.
  - (* PressLeaveGroup *)
    unfold leaveGroup, stopLocationTracking; simpl.
    destruct ref as [h|]; simpl.
    + destruct Href as (cb & ->). rewrite dropWatch_single.
      split; simpl in *; auto; lia.
    + split; simpl; auto.
  - (* PressMapType *)
    unfold toggleMapType; simpl.
    destruct (nextMapType mt); split; simpl; auto.
  - (* PressTracking *)
    destruct tr; unfold stopLocationTracking, startLocationTracking; simpl in *.
    + destruct ref as [h|]; [|discriminate Hflag].
      destruct Href as (cb & ->). rewrite dropWatch_single.
      split; simpl in *; auto; lia.
    + rewrite (Q eq_refl) in *. destruct ref; [discriminate Hflag|].
      rewrite Href. split; simpl; auto.
  - (* WatchSettled *)
    unfold startLocationTracking_settled; simpl.
    destruct (nth_error pd i) as [cb|] eqn:N; simpl;
      [|split; simpl; auto].
    destruct pd as [|p [|q pd]]; simpl in *;
      [destruct i; discriminate N| |lia].
    assert (W : ws = []) by (destruct ws; [reflexivity|simpl in Hcount; lia]).
    subst ws. destruct i as [|i]; [|destruct i; discriminate N].
    simpl. destruct o; simpl.
    + split; simpl; auto. now exists cb.
    + destruct ref as [h|]; [destruct Href as (c & Href); discriminate Href|].
      split; simpl; auto.
  - (* Position *)
    unfold onPosition; simpl.
    destruct (lookupWatch h ws) as [cb|]; simpl;
      [|split; simpl; auto].
    destruct (cb_isInGroup cb && truthy (cb_groupCode cb)
              && truthy (cb_userName cb)); split; simpl; auto.
Qed.

(** X17: as long as no watch is requested while another request is
    outstanding, the guard works: at most one subscription is delivering. *)
Lemma serial_at_most_one perm pos (w : World) :
  serialSteps (mounted perm pos) w -> activeSubscriptions w <= 1.
Proof.
  intros S.
  assert (I : SerialInv w).
  { induction S; [apply SerialInv_mounted|]. now apply SerialInv_step. }
  pose proof (ser_count I). unfold activeSubscriptions. lia.
Qed.

(** C6 (the code at the failing input): the tracking flag is set only when
    the watch request resolves, so a second request made before that
    passes the guard.  Both requests resolve: two subscriptions deliver,
    the ref holds the second handle only, and neither
    [stopLocationTracking] nor the unmount cleanup removes the first; after
    stopping, a subscription is still delivering while the flag is false
    and the ref is null. *)
Theorem double_start_two_subscriptions :
  run doubleStart sampleWorld = Some doubleStarted /\
  activeSubscriptions doubleStarted = 2 /\
  locationSubscription doubleStarted = Some 1 /\
  isTracking (ui doubleStarted) = true /\
  activeSubscriptions (stopLocationTracking doubleStarted) = 1 /\
  lookupWatch 0 (watches (stopLocationTracking doubleStarted)) <> None /\
  locationSubscription (stopLocationTracking doubleStarted) = None /\
  isTracking (ui (stopLocationTracking doubleStarted)) = false /\
  activeSubscriptions (unmount doubleStarted) = 1 /\
  run startThenJoin sampleWorld = Some startedThenJoined /\
  activeSubscriptions startedThenJoined = 2 /\
  locationSubscription startedThenJoined = Some 1.
Proof.
  repeat (split; [by_evaluation|]). by_evaluation.
Qed.

(* ------------------------------------------------------------------ *)
(** ** Validation of the join form *)

Lemma trimStart_nil_iff (s : jsstring) : trimStart s = [] <-> blank s = true.
Proof.
  induction s as [|c s IH]; simpl; [tauto|].
  destruct (isWhiteSpace c); simpl; [exact IH|].
  split; discriminate.
Qed.

Lemma blank_rev (s : jsstring) : blank (rev s) = blank s.
Proof.
  unfold blank. induction s as [|c s IH]; simpl; [reflexivity|].
  rewrite forallb_app, IH. simpl. rewrite andb_true_r. apply andb_comm.
Qed.

Lemma blank_trimStart (s : jsstring) : blank (trimStart s) = blank s.
Proof.
  induction s as [|c s IH]; simpl; [reflexivity|].
  destruct (isWhiteSpace c) eqn:E; simpl; [exact IH|].
  now rewrite E.
Qed.

(** [s.trim()] is truthy exactly when [s] has a character that is not
    white space. *)
Lemma truthy_trim (s : jsstring) : truthy (trim s) = negb (blank s).
Proof.
  unfold trim, trimEnd.
  destruct (trimStart (rev (trimStart s))) as [|c r] eqn:E.
  - apply trimStart_nil_iff in E.
    rewrite blank_rev, blank_trimStart in E. now rewrite E.
  - assert (B : blank (rev (trimStart s)) <> true).
    { intros B. apply trimStart_nil_iff in B. congruence. }
    rewrite blank_rev, blank_trimStart in B.
    destruct (blank s); [now elim B|].
    simpl. destruct (rev r ++ [c]) eqn:R; [|reflexivity].
    now destruct (rev r).
Qed.

Lemma truthy_of_not_blank (s : jsstring) : blank s = false -> truthy s = true.
Proof. destruct s; [discriminate|reflexivity]. Qed.

(** X1: the join form is refused exactly when the group code or the user
    name consists of white space only (the empty string included): then
    [joinGroup] only shows the validation alert.  Otherwise the join goes
    through: the in-group flag is set, the form is closed, and the code and
    the name are kept exactly as typed (they are not trimmed); location,
    map region, map mode and the tracking flag are not written. *)
Theorem joinGroup_validation (t1 t2 : Z) (w : World) :
  if blank (groupCode (ui w)) || blank (userName (ui w)) then
    joinGroup t1 t2 w =
    alert (str "Error") (str "Please enter both group code and your name.") w
  else
    isInGroup (ui (joinGroup t1 t2 w)) = true /\
    showJoinModal (ui (joinGroup t1 t2 w)) = false /\
    groupCode (ui (joinGroup t1 t2 w)) = groupCode (ui w) /\
    userName (ui (joinGroup t1 t2 w)) = userName (ui w) /\
    location (ui (joinGroup t1 t2 w)) = location (ui w) /\
    mapRegion (ui (joinGroup t1 t2 w)) = mapRegion (ui w) /\
    mapType (ui (joinGroup t1 t2 w)) = mapType (ui w) /\
    isTracking (ui (joinGroup t1 t2 w)) = isTracking (ui w) /\
    alertCount (joinGroup t1 t2 w) = S (alertCount w).
Proof.
  unfold joinGroup. rewrite !truthy_trim, !negb_involutive.
  destruct (blank (groupCode (ui w)) || blank (userName (ui w)));
    [reflexivity|].
  unfold simulateGroupMembers, alertCount.
  destruct w as [[loc reg mt gc un ig gm sm tr] ref ws pd nh trc]; simpl.
  destruct tr, loc; simpl; repeat split;
    rewrite ?filter_app, ?length_app; simpl; lia.
Qed.

(* ------------------------------------------------------------------ *)
(** ** The join form and the group state along a run *)

Lemma FormInv_mounted perm pos : FormInv (mounted perm pos).
Proof.
  unfold mounted, initializeLocation.
  destruct perm as [status|]; [destruct status; [destruct pos|..]|];
    (split; simpl; try reflexivity; try discriminate; intros p []).
Qed.

Lemma In_dropWatch (h : nat) (l : list (nat * Callback)) (p : nat * Callback) :
  In p (dropWatch h l) -> In p l.
Proof. unfold dropWatch. intros H. now apply filter_In in H. Qed.

Lemma FormInv_step (e : Event) (w : World) :
  FormInv w -> enabled e w = true -> FormInv (handle e w).
Proof.
  intros [Hmodal Hgroup Hno Hfresh] E.
  destruct w as [[loc reg mt gc un ig gm sm tr] ref ws pd nh trc].
  unfold enabled, render in E. simpl in *.
  destruct e; simpl.
  - (* PressJoinHikingGroup *)
    destruct loc, reg, ig; simpl in E; try discriminate E.
    split; simpl; auto; discriminate.
  - (* PressCancel *)
    split; simpl; auto; discriminate.
  - (* ChangeGroupCode *)
    destruct loc, reg; simpl in E; try discriminate E. subst sm.
    rewrite (Hmodal eq_refl) in *. split; simpl; auto; discriminate.
  - (* ChangeUserName *)
    destruct loc, reg; simpl in E; try discriminate E. subst sm.
    rewrite (Hmodal eq_refl) in *. split; simpl; auto; discriminate.
  - (* PressJoinGroup *)
    destruct loc as [l|], reg; simpl in E; try discriminate E. subst sm.
    rewrite (Hmodal eq_refl) in *.
    unfold joinGroup; simpl. rewrite !truthy_trim, !negb_involutive.
    destruct (blank gc) eqn:Bc; simpl;
      [split; simpl; auto; discriminate|].
    destruct (blank un) eqn:Bn; simpl;
      [split; simpl; auto; discriminate|].
    destruct tr; simpl;
      (split; simpl; auto; try discriminate;
       intros _; repeat split; auto; now exists l, t1, t2).
  - (* PressLeaveGroup *)
    unfold leaveGroup, stopLocationTracking; simpl.
    destruct ref as [h|]; simpl;
      (split; simpl; auto; try discriminate).
    intros p Hp. apply Hfresh. now apply In_dropWatch in Hp.
  - (* PressMapType *)
    unfold toggleMapType; simpl.
    destruct (nextMapType mt); split; simpl; auto.
  - (* PressTracking *)
    destruct tr; unfold stopLocationTracking, startLocationTracking; simpl.
    + destruct ref as [h|]; simpl; split; simpl; auto.
      intros p Hp. apply Hfresh. now apply In_dropWatch in Hp.
    + split; simpl; auto.
  - (* RegionChangeComplete *)
    split; simpl; auto.
  - (* WatchSettled *)
    unfold startLocationTracking_settled; simpl.
    destruct (nth_error pd i) as [cb|]; simpl; [|split; simpl; auto].
    destruct o; simpl; split; simpl; auto.
    intros p Hp. apply in_app_or in Hp. destruct Hp as [Hp|[<-|[]]].
    + apply Hfresh in Hp. lia.
    + simpl. lia.
  - (* Position *)
    unfold onPosition; simpl.
    destruct (lookupWatch h ws) as [cb|]; simpl; [|split; simpl; auto].
    destruct (cb_isInGroup cb && truthy (cb_groupCode cb)
              && truthy (cb_userName cb)); split; simpl; auto.
Qed.

Lemma FormInv_reachable (w : World) : reachable w -> FormInv w.
Proof.
  intros (perm & pos & S).
  induction S; [apply FormInv_mounted|]. now apply FormInv_step.
Qed.

Lemma reachable_step (w : World) (e : Event) :
  reachable w -> enabled e w = true -> reachable (handle e w).
Proof.
  intros (perm & pos & S) E. exists perm, pos. now apply steps_step.
Qed.

Lemma reachable_run (es : list Event) (w w' : World) :
  reachable w -> run es w = Some w' -> reachable w'.
Proof.
  revert w. induction es as [|e es IH]; simpl; intros w R H.
  - now injection H as <-.
  - destruct (enabled e w) eqn:E; [|discriminate].
    apply (IH (handle e w)); [now apply reachable_step|exact H].
Qed.

Lemma sampleWorld_reachable : reachable sampleWorld.
Proof. exists (Resolved granted), (Resolved istanbul). apply steps_refl. Qed.

Lemma lookupWatch_fresh (h : nat) (cb : Callback) (l : list (nat * Callback)) :
  (forall p, In p l -> fst p < h) ->
  lookupWatch h (l ++ [(h, cb)]) = Some cb.
Proof.
  unfold lookupWatch. induction l as [|[k c] l IH]; simpl; intros F.
  - now rewrite Nat.eqb_refl.
  - assert (K : k < h) by (apply (F (k, c)); now left).
    destruct (Nat.eqb_spec k h); [lia|].
    apply IH. intros p Hp. apply F. now right.
Qed.

Lemma steps_reachable (w w' : World) : reachable w -> steps w w' -> reachable w'.
Proof.
  intros R S. induction S; [assumption|]. now apply reachable_step.
Qed.

(* ------------------------------------------------------------------ *)
(** ** Mounting *)

(** X2: whatever the permission request and the position fetch do, the
    mounted screen holds the reading exactly when permission was granted
    and the fetch resolved; the map region is then centred on it and no
    alert is shown.  In every other case exactly one alert is shown (the
    permission alert when permission was not granted, the generic error
    alert when a request failed), the position is fetched only if
    permission was granted, and nothing can happen to the screen any more:
    there is no retry. *)
Theorem initializeLocation_outcomes
    (perm : Outcome PermissionStatus) (pos : Outcome LocationObject.t) :
  location (ui (mounted perm pos)) = acquired perm pos /\
  mapRegion (ui (mounted perm pos)) = option_map regionAround (acquired perm pos) /\
  filter isAlert (trace (mounted perm pos)) =
    match acquired perm pos with Some _ => [] | None => [mountAlert perm] end /\
  fetchedPosition (mounted perm pos) = permissionResolvedGranted perm /\
  (acquired perm pos = None ->
   render (ui (mounted perm pos)) = LoadingContainer /\
   forall w', steps (mounted perm pos) w' -> w' = mounted perm pos).
Proof.
  assert (L : location (ui (mounted perm pos)) = acquired perm pos).
  { destruct perm as [[| |]|], pos; reflexivity. }
  split; [exact L|].
  split; [destruct perm as [[| |]|], pos; reflexivity|].
  split; [destruct perm as [[| |]|], pos; reflexivity|].
  split; [destruct perm as [[| |]|], pos; reflexivity|].
  intros A. rewrite A in L. split.
  - unfold render. now rewrite L.
  - intros w' S. exact (loading_is_stuck (Inv_mounted perm pos) L S).
Qed.

Lemma handle_keeps_location (e : Event) (w : World) :
  location (ui w) <> None -> location (ui (handle e w)) <> None.
Proof.
  destruct w as [[loc reg mt gc un ig gm sm tr] ref ws pd nh trc].
  simpl. intros L. destruct loc as [l|]; [clear L|now elim L].
  destruct e; simpl; try discriminate.
  - unfold joinGroup; simpl.
    destruct (negb (truthy (trim gc)) || negb (truthy (trim un)));
      [discriminate|]. destruct tr; discriminate.
  - unfold leaveGroup, stopLocationTracking; simpl.
    destruct ref; discriminate.
  - unfold toggleMapType; simpl. destruct (nextMapType mt); discriminate.
  - destruct tr; unfold stopLocationTracking; simpl;
      [destruct ref|]; discriminate.
  - unfold startLocationTracking_settled; simpl.
    destruct (nth_error pd i); [destruct o|]; discriminate.
  - unfold onPosition; simpl.
    destruct (lookupWatch h ws) as [cb|]; [|discriminate].
    destruct (cb_isInGroup cb && truthy (cb_groupCode cb)
              && truthy (cb_userName cb)); discriminate.
Qed.

(** X4: once the map is shown it stays: from a world reached through the
    screen in which a location reading is present, no run of events leads
    back to the loading container (location and map region are never
    reset to null). *)
Theorem never_back_to_loading (w w' : World) :
  reachable w -> steps w w' -> location (ui w) <> None ->
  location (ui w') <> None /\ mapRegion (ui w') <> None /\
  isLoading (render (ui w')) = false.
Proof.
  intros R S L.
  assert (L' : location (ui w') <> None).
  { induction S; [assumption|]. now apply handle_keeps_location. }
  pose proof (inv_region (Inv_reachable (steps_reachable R S))) as G.
  unfold render.
  destruct (location (ui w')); [|now elim L'].
  destruct (mapRegion (ui w')); [|discriminate G].
  repeat split; discriminate.
Qed.

Lemma readyWorld_reachable : reachable readyWorld.
Proof.
  apply (reachable_run (filledForm (str "HIKE123") (str "Ann"))
           sampleWorld_reachable).
  reflexivity.
Qed.

Lemma never_back_to_loading_witness :
  location (ui joinedWorld) <> None /\ mapRegion (ui joinedWorld) <> None /\
  isLoading (render (ui joinedWorld)) = false.
Proof.
  apply (@never_back_to_loading readyWorld joinedWorld readyWorld_reachable).
  - apply (steps_step (w := readyWorld) (PressJoinGroup 1 2)).
    + apply steps_refl.
    + reflexivity.
  - discriminate.
Defined.

(* ------------------------------------------------------------------ *)
(** ** Map display mode and position updates *)

(** X5: the map-type button always changes the display mode, and nothing
    else on the screen ever does: every other event leaves the mode as it
    was. *)
Theorem only_map_button_changes_mode (e : Event) (w : World) :
  if isPressMapType e
  then mapType (ui (handle e w)) <> mapType (ui w)
  else mapType (ui (handle e w)) = mapType (ui w).
Proof.
  destruct w as [[loc reg mt gc un ig gm sm tr] ref ws pd nh trc].
  destruct e; simpl; try reflexivity.
  - unfold joinGroup; simpl.
    destruct (negb (truthy (trim gc)) || negb (truthy (trim un)));
      [reflexivity|]. destruct tr, loc; reflexivity.
  - unfold leaveGroup, stopLocationTracking; simpl.
    destruct ref; reflexivity.
  - destruct mt; discriminate.
  - destruct tr; unfold stopLocationTracking; simpl;
      [destruct ref|]; reflexivity.
  - unfold startLocationTracking_settled; simpl.
    destruct (nth_error pd i); [destruct o|]; reflexivity.
  - unfold onPosition; simpl.
    destruct (lookupWatch h ws) as [cb|]; [|reflexivity].
    destruct (cb_isInGroup cb && truthy (cb_groupCode cb)
              && truthy (cb_userName cb)); reflexivity.
Qed.

(** X6: a position delivered to a watch that is delivering becomes the
    location and recentres the map on it with the fixed zoom, also right
    after the user has dragged the map; the group state, the form, the
    tracking flag, the ref and the watches are not touched and no alert is
    shown. *)
Theorem position_recentres_map
    (h : nat) (l : LocationObject.t) (r : MapRegion.t) (w : World) :
  lookupWatch h (watches w) <> None ->
  let w' := onPosition h l (handle (RegionChangeComplete r) w) in
  location (ui w') = Some l /\
  mapRegion (ui w') =
    Some (MapRegion.mk (Coords.latitude (LocationObject.coords l))
            (Coords.longitude (LocationObject.coords l)) 0.01 0.01) /\
  ui w' = setMapRegion (mapRegion (ui w')) (setLocation (Some l) (ui w)) /\
  locationSubscription w' = locationSubscription w /\
  watches w' = watches w /\ pending w' = pending w /\
  alertCount w' = alertCount w.
Proof.
  intros H. unfold onPosition, alertCount. simpl.
  destruct (lookupWatch h (watches w)) as [cb|]; [|now elim H].
  destruct (cb_isInGroup cb && truthy (cb_groupCode cb)
            && truthy (cb_userName cb)); simpl; repeat split.
  rewrite filter_app. simpl. now rewrite app_nil_r.
Qed.

Lemma position_recentres_map_witness :
  location (ui (onPosition 0 ankara
                  (handle (RegionChangeComplete (regionAround istanbul))
                     trackingWorld))) = Some ankara.
Proof.
  apply (@position_recentres_map 0 ankara (regionAround istanbul) trackingWorld).
  discriminate.
Defined.

(* ------------------------------------------------------------------ *)
(** ** What a watch reports *)

(** X7: the watch requested by joining never reports to the group.  The
    join form is only open while the in-group flag is false, and the watch
    callback keeps the flag of the render that requested it; so on a
    screen reached through the UI, after an accepted join that requests the
    watch and the request resolving, the user is in the group and the ref
    holds the new subscription, yet a position delivered to it only
    updates the location: [updateLocationInGroup] is not called and
    nothing is logged. *)
Theorem join_started_watch_never_reports
    (t1 t2 : Z) (l : LocationObject.t) (w : World) :
  reachable w ->
  enabled (PressJoinGroup t1 t2) w = true ->
  blank (groupCode (ui w)) = false ->
  blank (userName (ui w)) = false ->
  isTracking (ui w) = false ->
  let w1 := joinGroup t1 t2 w in
  let w2 := startLocationTracking_settled (List.length (pending w)) (Resolved tt) w1 in
  isInGroup (ui w2) = true /\
  locationSubscription w2 = Some (nextHandle w) /\
  isTracking (ui w2) = true /\
  location (ui (onPosition (nextHandle w) l w2)) = Some l /\
  trace (onPosition (nextHandle w) l w2) = trace w2.
Proof.
  intros R E Bc Bn T.
  pose proof (FormInv_reachable R) as [Hmodal _ _ Hfresh].
  assert (M : showJoinModal (ui w) = true).
  { unfold enabled, render in E.
    destruct (location (ui w)), (mapRegion (ui w)); simpl in E;
      try discriminate E; exact E. }
  specialize (Hmodal M).
  assert (J : joinGroup t1 t2 w =
              alert (str "Success")
                (str "Joined group " ++ [dquote] ++ groupCode (ui w) ++ [dquote]
                   ++ str " as " ++ userName (ui w) ++ str "!")
                (simulateGroupMembers (ui w) t1 t2
                   (startLocationTracking (ui w)
                      (withUi (setShowJoinModal false)
                         (withUi (setIsInGroup true) w))))).
  { unfold joinGroup. rewrite !truthy_trim, Bc, Bn, T. reflexivity. }
  simpl. rewrite J. clear J.
  unfold startLocationTracking_settled, simulateGroupMembers, onPosition.
  destruct w as [[loc reg mt gc un ig gm sm tr] ref ws pd nh trc].
  simpl in *. subst ig.
  destruct loc; simpl; rewrite nth_error_snoc; simpl;
    rewrite (lookupWatch_fresh _ _ Hfresh); simpl; repeat split.
Qed.

Lemma join_started_watch_never_reports_witness :
  trace (onPosition (nextHandle readyWorld) ankara
           (startLocationTracking_settled (List.length (pending readyWorld))
              (Resolved tt) (joinGroup 1 2 readyWorld)))
  = trace (startLocationTracking_settled (List.length (pending readyWorld))
             (Resolved tt) (joinGroup 1 2 readyWorld)).
Proof.
  apply (@join_started_watch_never_reports 1 2 ankara readyWorld
           readyWorld_reachable eq_refl eq_refl eq_refl eq_refl).
Defined.

(** X8: the watch requested with the Start Tracking button while in a
    group does report: on a screen reached through the UI with the in-group
    flag set and tracking off, after the button press and the request
    resolving, every position delivered to the new subscription logs the
    update under the user's name. *)
Theorem button_started_watch_reports (l : LocationObject.t) (w : World) :
  reachable w ->
  isInGroup (ui w) = true ->
  isTracking (ui w) = false ->
  let w1 := handle PressTracking w in
  let w2 := startLocationTracking_settled (List.length (pending w)) (Resolved tt) w1 in
  enabled PressTracking w = true /\
  locationSubscription w2 = Some (nextHandle w) /\
  trace (onPosition (nextHandle w) l w2) = trace w2 ++ [updateLog (userName (ui w))].
Proof.
  intros R G T.
  pose proof (FormInv_reachable R) as [_ Hgroup _ Hfresh].
  destruct (Hgroup G) as (Bc & Bn & _).
  apply truthy_of_not_blank in Bc, Bn.
  pose proof (Inv_reachable R) as [_ _ Hregion Hloading _].
  assert (L : location (ui w) <> None).
  { intros L. destruct (Hloading L) as (U & _). rewrite U in G. discriminate G. }
  unfold enabled, render, startLocationTracking_settled, onPosition.
  destruct w as [[loc reg mt gc un ig gm sm tr] ref ws pd nh trc].
  simpl in *. subst ig tr. simpl.
  destruct loc; [|now elim L]. destruct reg; [|discriminate Hregion].
  rewrite nth_error_snoc; simpl.
  rewrite (lookupWatch_fresh _ _ Hfresh); simpl.
  rewrite Bc, Bn. simpl. repeat split.
Qed.

Lemma stoppedInGroupWorld_reachable : reachable stoppedInGroupWorld.
Proof.
  apply (reachable_run stoppedInGroup sampleWorld_reachable).
  vm_compute. reflexivity.
Qed.

Lemma button_started_watch_reports_witness :
  trace (onPosition (nextHandle stoppedInGroupWorld) ankara
           (startLocationTracking_settled
              (List.length (pending stoppedInGroupWorld)) (Resolved tt)
              (handle PressTracking stoppedInGroupWorld)))
  = trace (startLocationTracking_settled
             (List.length (pending stoppedInGroupWorld)) (Resolved tt)
             (handle PressTracking stoppedInGroupWorld))
    ++ [updateLog (str "Ann")].
Proof.
  apply (@button_started_watch_reports ankara stoppedInGroupWorld
           stoppedInGroupWorld_reachable eq_refl eq_refl).
Defined.

(* ------------------------------------------------------------------ *)
(** ** What is on the map and in the panel *)

(** X9: on every screen reached through the UI the peer list is exactly
    the two demo members built around some location reading (Alice and
    Bob, with their offsets and palette colours 1 and 2) while the
    in-group flag is set, and is empty otherwise; in a group the code and
    the name are not blank and the join form is closed.  So the group
    panel, when shown, shows the code, the name and three members online;
    the map carries three markers in a group and one otherwise, and no two
    markers share a colour. *)
Theorem group_panel_contents (w : World) :
  reachable w ->
  (if isInGroup (ui w)
   then exists l t1 t2, groupMembers (ui w) = demoMembers l t1 t2
   else groupMembers (ui w) = []) /\
  List.length (groupMembers (ui w)) = (if isInGroup (ui w) then 2 else 0) /\
  (isInGroup (ui w) = true ->
   blank (groupCode (ui w)) = false /\ blank (userName (ui w)) = false /\
   showJoinModal (ui w) = false) /\
  (forall v, render (ui w) = Container v ->
     groupStatus v =
       (if isInGroup (ui w)
        then GroupContainer (groupCode (ui w)) (userName (ui w)) 3
        else JoinButton) /\
     List.length (markers v) = (if isInGroup (ui w) then 3 else 1) /\
     NoDup (map pinColor (markers v))).
Proof.
  intros R. pose proof (FormInv_reachable R) as [Hmodal Hgroup Hno _].
  unfold render.
  destruct w as [[loc reg mt gc un ig gm sm tr] ref ws pd nh trc].
  simpl in *. destruct ig.
  - destruct (Hgroup eq_refl) as (Bc & Bn & l & t1 & t2 & ->).
    split; [now exists l, t1, t2|].
    split; [reflexivity|].
    split; [intros _; repeat split; auto;
            destruct sm; [discriminate (Hmodal eq_refl)|reflexivity]|].
    intros v V. destruct loc, reg; try discriminate V.
    injection V as <-. simpl. split; [reflexivity|]. split; [reflexivity|].
    repeat constructor; simpl; intuition discriminate.
  - rewrite (Hno eq_refl).
    split; [reflexivity|].
    split; [reflexivity|]. split; [discriminate|].
    intros v V. destruct loc, reg; try discriminate V.
    injection V as <-. simpl. split; [reflexivity|]. split; [reflexivity|].
    repeat constructor; simpl; intuition.
Qed.

Lemma group_panel_contents_witness :
  (exists l t1 t2, groupMembers (ui joinedWorld) = demoMembers l t1 t2) /\
  List.length (groupMembers (ui joinedWorld)) = 2.
Proof.
  destruct (@group_panel_contents joinedWorld joinedWorld_reachable)
    as (M & N & _).
  exact (conj M N).
Defined.

(** X10: the user's marker is never left without a description: it is
    the user name, as it is, whenever that is not the empty string (a
    blank name included), and the stock text otherwise; on a screen
    reached through the UI it is the user name whenever the user is in a
    group. *)
Theorem userMarkerDescription_filled :
  (forall s, userMarkerDescription s <> []) /\
  (forall s, userName s <> [] -> userMarkerDescription s = userName s) /\
  (forall s, userName s = [] -> userMarkerDescription s = str "Your location") /\
  (forall w, reachable w -> isInGroup (ui w) = true ->
             userMarkerDescription (ui w) = userName (ui w)).
Proof.
  unfold userMarkerDescription. repeat split.
  - intros s. destruct (userName s); discriminate.
  - intros s H. destruct (userName s); [now elim H|reflexivity].
  - intros s ->. reflexivity.
  - intros w R G.
    destruct (fi_group (FormInv_reachable R) G) as (_ & Bn & _).
    now rewrite (truthy_of_not_blank _ Bn).
Qed.

(* ------------------------------------------------------------------ *)
(** ** Stopping, leaving and unmounting against the platform *)

(** X11: after [stopLocationTracking], [leaveGroup] or the unmount
    cleanup, the subscription the ref held no longer changes anything: a
    position for its handle is ignored. *)
Theorem removed_subscription_is_silent
    (h : nat) (l : LocationObject.t) (w : World) :
  locationSubscription w = Some h ->
  onPosition h l (stopLocationTracking w) = stopLocationTracking w /\
  onPosition h l (leaveGroup w) = leaveGroup w /\
  onPosition h l (unmount w) = unmount w.
Proof.
  intros H. unfold onPosition, leaveGroup, stopLocationTracking, unmount.
  rewrite H. simpl. rewrite H. simpl.
  now rewrite lookupWatch_dropWatch.
Qed.

Lemma removed_subscription_is_silent_witness :
  onPosition 0 ankara (stopLocationTracking trackingWorld)
  = stopLocationTracking trackingWorld.
Proof.
  apply (@removed_subscription_is_silent 0 ankara trackingWorld).
  reflexivity.
Defined.

(** X12: leaving the group does not cancel a watch request that is still
    outstanding: when it resolves afterwards the ref takes the new
    subscription and the tracking flag is set, although the user is out of
    the group and code and name are empty. *)
Theorem leaveGroup_keeps_outstanding_request
    (i : nat) (cb : Callback) (w : World) :
  nth_error (pending w) i = Some cb ->
  let w' := startLocationTracking_settled i (Resolved tt) (leaveGroup w) in
  pending (leaveGroup w) = pending w /\
  isInGroup (ui w') = false /\
  groupCode (ui w') = [] /\ userName (ui w') = [] /\
  isTracking (ui w') = true /\
  locationSubscription w' = Some (nextHandle w) /\
  lookupWatch (nextHandle w) (watches w') <> None.
Proof.
  intros H. unfold startLocationTracking_settled, leaveGroup, stopLocationTracking.
  destruct w as [s [h|] ws pd nh trc]; simpl in *; rewrite H; simpl;
    repeat split; apply lookupWatch_snoc.
Qed.

Lemma leaveGroup_keeps_outstanding_request_witness :
  isTracking
    (ui (startLocationTracking_settled 0 (Resolved tt) (leaveGroup joinedWorld)))
  = true.
Proof.
  apply (@leaveGroup_keeps_outstanding_request 0
           (mkCallback false (str "HIKE123") (str "Ann")) joinedWorld).
  reflexivity.
Defined.

Lemma SerialInv_serial perm pos (w : World) :
  serialSteps (mounted perm pos) w -> SerialInv w.
Proof.
  intros S. induction S; [apply SerialInv_mounted|]. now apply SerialInv_step.
Qed.

(** X13: the unmount cleanup never writes the screen state, the ref or the
    outstanding requests, and it removes every delivering subscription as
    long as no watch was requested while another request was
    outstanding. *)
Theorem unmount_cleans_up perm pos (w : World) :
  serialSteps (mounted perm pos) w ->
  watches (unmount w) = [] /\
  ui (unmount w) = ui w /\
  locationSubscription (unmount w) = locationSubscription w /\
  pending (unmount w) = pending w.
Proof.
  intros S. destruct (@SerialInv_serial perm pos w S) as [_ _ Href].
  unfold unmount.
  destruct w as [s [h|] ws pd nh trc]; simpl in *.
  - destruct Href as (cb & ->). now rewrite dropWatch_single.
  - now rewrite Href.
Qed.

Lemma trackingWorld_serial :
  serialSteps (mounted (Resolved granted) (Resolved istanbul)) trackingWorld.
Proof.
  apply (serial_step (w' := startRequestedWorld) (WatchSettled 0 (Resolved tt))).
  - apply (serial_step (w' := sampleWorld) PressTracking).
    + apply serial_refl.
    + reflexivity.
    + reflexivity.
  - reflexivity.
  - discriminate.
Qed.

Lemma unmount_cleans_up_witness : watches (unmount trackingWorld) = [].
Proof.
  apply (@unmount_cleans_up _ _ trackingWorld trackingWorld_serial).
Defined.

(** X14: the unmount cleanup does not cover a watch request that is still
    outstanding: when it resolves after the unmount, one more subscription
    is delivering, and it is not the one the cleanup removed. *)
Theorem unmount_misses_outstanding_request
    (i : nat) (cb : Callback) (w : World) :
  nth_error (pending w) i = Some cb ->
  activeSubscriptions (startLocationTracking_settled i (Resolved tt) (unmount w))
  = S (activeSubscriptions (unmount w)) /\
  lookupWatch (nextHandle w)
    (watches (startLocationTracking_settled i (Resolved tt) (unmount w))) <> None.
Proof.
  intros H. unfold startLocationTracking_settled, unmount, activeSubscriptions.
  destruct w as [s [h|] ws pd nh trc]; simpl in *; rewrite H; simpl;
    (split; [rewrite length_app; simpl; lia | apply lookupWatch_snoc]).
Qed.

Lemma unmount_misses_outstanding_request_witness :
  activeSubscriptions
    (startLocationTracking_settled 0 (Resolved tt) (unmount startRequestedWorld))
  = S (activeSubscriptions (unmount startRequestedWorld)).
Proof.
  apply (@unmount_misses_outstanding_request 0 (mkCallback false [] [])
           startRequestedWorld).
  reflexivity.
Defined.

(* ------------------------------------------------------------------ *)
(** ** Requests made before the tracking flag is set *)

Lemma run_app (es1 es2 : list Event) (w : World) :
  run (es1 ++ es2) w =
  match run es1 w with
  | Some w1 => run es2 w1
  | None => None
  end.
Proof.
  revert w. induction es1 as [|e es1 IH]; simpl; intros w; [reflexivity|].
  destruct (enabled e w); [apply IH|reflexivity].
Qed.

Lemma run_presses (n : nat) (w : World) :
  isLoading (render (ui w)) = false -> isTracking (ui w) = false ->
  exists w1, run (repeat PressTracking n) w = Some w1 /\
             ui w1 = ui w /\ watches w1 = watches w /\
             nextHandle w1 = nextHandle w /\
             List.length (pending w1) = List.length (pending w) + n.
Proof.
  revert w. induction n as [|n IH]; intros w L T; cbn [repeat run].
  - exists w. repeat split. lia.
  - assert (E : enabled PressTracking w = true)
      by (unfold enabled; now rewrite L).
    rewrite E. cbn [handle]. rewrite T.
    destruct (IH (startLocationTracking (ui w) w)) as (w1 & Hr & Hu & Hw & Hn & Hp);
      [exact L|exact T|].
    exists w1. repeat split; try assumption.
    rewrite Hp. simpl. rewrite length_app. simpl. lia.
Qed.

Lemma run_settles (n : nat) (w : World) :
  n <= List.length (pending w) ->
  exists w2, run (repeat (WatchSettled 0 (Resolved tt)) n) w = Some w2 /\
             List.length (watches w2) = List.length (watches w) + n /\
             List.length (pending w2) = List.length (pending w) - n /\
             (0 < n -> isTracking (ui w2) = true /\
                       locationSubscription w2 = Some (nextHandle w + n - 1)).
Proof.
  revert w. induction n as [|n IH]; intros w H; cbn [repeat run].
  - exists w. repeat split; lia.
  - destruct w as [s ref ws pd nh trc]. simpl in H.
    destruct pd as [|cb pd]; simpl in H; [lia|].
    cbn [enabled pending List.length Nat.ltb Nat.leb handle].
    unfold startLocationTracking_settled. cbn [pending nth_error removeAt].
    cbn [ui locationSubscription watches nextHandle trace].
    destruct (IH (mkWorld (setIsTracking true s) (Some nh) (ws ++ [(nh, cb)])
                    pd (S nh) trc)) as (w2 & Hr & Hw & Hp & Ht);
      [simpl; lia|].
    simpl in *. exists w2. split; [exact Hr|].
    rewrite Hw, Hp, length_app. simpl.
    split; [lia|]. split; [lia|]. intros _.
    destruct n as [|n].
    + simpl in Hr. injection Hr as <-. simpl. split; [reflexivity|].
      f_equal. lia.
    + destruct Ht as (Ht & Hs); [lia|]. split; [exact Ht|].
      rewrite Hs. f_equal. lia.
Qed.

(** X15: the tracking flag is set only when a watch request resolves, so
    on a screen past loading with tracking off every press of Start
    Tracking made before that requests one more watch: [n] presses followed
    by the [n] resolutions leave [n] more subscriptions delivering, with
    the ref holding only the last of them. *)
Theorem repeated_start_requests (n : nat) (w : World) :
  isLoading (render (ui w)) = false ->
  isTracking (ui w) = false ->
  pending w = [] ->
  exists w',
    run (repeat PressTracking n ++ repeat (WatchSettled 0 (Resolved tt)) n) w = Some w' /\
    activeSubscriptions w' = activeSubscriptions w + n /\
    pending w' = [] /\
    (0 < n -> isTracking (ui w') = true /\
              locationSubscription w' = Some (nextHandle w + n - 1)).
Proof.
  intros L T P.
  destruct (@run_presses n w L T) as (w1 & Hr1 & _ & Hw1 & Hn1 & Hp1).
  rewrite P in Hp1. simpl in Hp1.
  destruct (@run_settles n w1) as (w2 & Hr2 & Hw2 & Hp2 & Ht2); [lia|].
  exists w2. rewrite run_app, Hr1. split; [exact Hr2|].
  unfold activeSubscriptions. rewrite Hw2, Hw1. split; [reflexivity|].
  split.
  - destruct (pending w2); [reflexivity|]. simpl in Hp2. lia.
  - rewrite <- Hn1. exact Ht2.
Qed.

Lemma repeated_start_requests_witness :
  exists w',
    run (repeat PressTracking 3 ++ repeat (WatchSettled 0 (Resolved tt)) 3)
      sampleWorld = Some w' /\
    activeSubscriptions w' = activeSubscriptions sampleWorld + 3 /\
    pending w' = [] /\
    (0 < 3 -> isTracking (ui w') = true /\
              locationSubscription w' = Some (nextHandle sampleWorld + 3 - 1)).
Proof.
  exact (@repeated_start_requests 3 sampleWorld eq_refl eq_refl eq_refl).
Defined.

Lemma serial_at_most_one_witness : activeSubscriptions trackingWorld <= 1.
Proof.
  exact (@serial_at_most_one _ _ trackingWorld trackingWorld_serial).
Defined.

(* ------------------------------------------------------------------ *)
(** ** The tracking button and the alerts *)

(** X16: on every screen reached through the UI the tracking button offers
    Stop exactly when the ref holds a subscription, and that subscription
    is delivering; pressing the button then removes it, nulls the ref and
    clears the flag.  When the ref is null the button requests a watch. *)
Theorem tracking_button_matches_ref (w : World) :
  reachable w ->
  trackingButtonStops (ui w) = isSome (locationSubscription w) /\
  (forall h, locationSubscription w = Some h ->
     lookupWatch h (watches w) <> None /\
     lookupWatch h (watches (handle PressTracking w)) = None /\
     locationSubscription (handle PressTracking w) = None /\
     isTracking (ui (handle PressTracking w)) = false) /\
  (locationSubscription w = None ->
     handle PressTracking w = startLocationTracking (ui w) w).
Proof.
  intros R. destruct (Inv_reachable R) as [Hflag Hhandle _ _ _].
  unfold trackingButtonStops. split; [exact Hflag|].
  split.
  - intros h H. split; [now apply Hhandle|].
    simpl. rewrite Hflag, H. simpl. unfold stopLocationTracking. rewrite H.
    simpl. repeat split. apply lookupWatch_dropWatch.
  - intros H. simpl. now rewrite Hflag, H.
Qed.

Lemma tracking_button_matches_ref_witness :
  trackingButtonStops (ui trackingWorld) = isSome (locationSubscription trackingWorld).
Proof.
  apply (@tracking_button_matches_ref trackingWorld).
  apply (reachable_run [PressTracking; WatchSettled 0 (Resolved tt)]
           sampleWorld_reachable).
  reflexivity.
Defined.

(** X3: submitting the join form and leaving the group each show exactly
    one alert, whatever the state; no other event shows any.  In
    particular a watch request that fails, a position update and the
    tracking button never alert the user. *)
Theorem alerts_per_event (e : Event) (w : World) :
  alertCount (handle e w) = alertCount w + (if alerts e then 1 else 0).
Proof.
  unfold alertCount.
  destruct w as [[loc reg mt gc un ig gm sm tr] ref ws pd nh trc].
  destruct e; simpl; try lia.
  - unfold joinGroup; simpl.
    destruct (negb (truthy (trim gc)) || negb (truthy (trim un))); simpl.
    + rewrite filter_app, length_app. reflexivity.
    + destruct tr, loc; simpl;
        rewrite ?filter_app, ?length_app; simpl; lia.
  - unfold leaveGroup, stopLocationTracking; simpl.
    destruct ref; simpl; rewrite ?filter_app, ?length_app; simpl; lia.
  - unfold toggleMapType; simpl. destruct (nextMapType mt); simpl; lia.
  - destruct tr; unfold stopLocationTracking; simpl;
      [destruct ref; simpl|]; rewrite ?filter_app, ?length_app; simpl; lia.
  - unfold startLocationTracking_settled; simpl.
    destruct (nth_error pd i); [destruct o|]; simpl;
      rewrite ?filter_app, ?length_app; simpl; lia.
  - unfold onPosition; simpl.
    destruct (lookupWatch h ws) as [cb|]; simpl; [|lia].
    destruct (cb_isInGroup cb && truthy (cb_groupCode cb)
              && truthy (cb_userName cb)); simpl;
      rewrite ?filter_app, ?length_app; simpl; lia.
Qed.

(* ------------------------------------------------------------------ *)
(** ** Joining needs a location *)

(** X18: the join form can be submitted only once a location reading is
    present.  On a screen reached through the UI without a reading the
    group code and the user name are still empty and the form cannot be
    submitted; and whenever it can be submitted there is a reading, so a
    join that passes the validation always lists the two demo members
    built around it: the early return of [simulateGroupMembers] is never
    taken. *)
Theorem joinGroup_only_with_location (w : World) :
  reachable w ->
  (location (ui w) = None ->
   groupCode (ui w) = [] /\ userName (ui w) = [] /\
   forall t1 t2, enabled (PressJoinGroup t1 t2) w = false) /\
  (forall t1 t2, enabled (PressJoinGroup t1 t2) w = true ->
   exists l, location (ui w) = Some l /\
     (blank (groupCode (ui w)) || blank (userName (ui w)) = false ->
      groupMembers (ui (joinGroup t1 t2 w)) = demoMembers l t1 t2)).
Proof.
  intros R. pose proof (Inv_reachable R) as I. split.
  - intros L. destruct (inv_loading I L) as (U & _).
    rewrite U. repeat split. intros t1 t2.
    unfold enabled, render. now rewrite U.
  - intros t1 t2 E.
    destruct (location (ui w)) as [l|] eqn:L;
      [|now elim (enabled_not_loading _ I E)].
    exists l. split; [reflexivity|]. intros B.
    apply orb_false_iff in B. destruct B as (Bc & Bn).
    unfold joinGroup, simulateGroupMembers.
    rewrite !truthy_trim, Bc, Bn, L. simpl.
    destruct (negb (isTracking (ui w))); reflexivity.
Qed.

Lemma joinGroup_only_with_location_witness :
  exists l, location (ui readyWorld) = Some l /\
    (blank (groupCode (ui readyWorld)) || blank (userName (ui readyWorld)) = false ->
     groupMembers (ui (joinGroup 1 2 readyWorld)) = demoMembers l 1 2).
Proof.
  exact (proj2 (@joinGroup_only_with_location readyWorld readyWorld_reachable)
           1%Z 2%Z eq_refl).
Defined.
